(** * descargas_universal_win: a shallow embedding and its checked properties

    The development follows [descargas_universal_win.py]:

    - Python text is a list of Unicode code points.  What the interpreter
      decides from its Unicode database for code points outside ASCII is a
      field of the class [PyRuntime]; the ASCII range is written out.
    - The browser page (Playwright's [Page], [Locator], [APIRequestContext]
      and [Download] objects) is an interface, the class [Browser]: every
      call takes the world, answers or raises, and gives the next world.
    - Code that catches exceptions is written in a small state-and-error
      monad; every call made on the page is also recorded, in order, in the
      [calls] field of the state.
    - The output directory is the set of the names in it, compared
      character by character; [descargas_log.csv] is kept apart from it, as
      the list of its rows.  Appending to the ledger and printing succeed.
    - The [while True] loop of [run_download_month] is iterated by fuel. *)

From Stdlib Require Import NArith Ascii String DecimalFacts DecimalNat
  DecimalString.
From stdpp Require Import base option list strings gmap sorting.

Local Open Scope N_scope.

(* ===================================================================== *)
(** ** Python text *)
(* ===================================================================== *)

(** A [str] is a sequence of code points. *)
Abbreviation pystr := (list N).

(** The literals of the source are ASCII. *)
Definition str (s : string) : pystr := N_of_ascii <$> list_ascii_of_string s.

(** The outcome of a call that may raise.  The source catches every
    exception alike ([except Exception]), so one [Raise] stands for them. *)
Inductive exc (A : Type) : Type :=
| Ok (a : A)
| Raise.
Arguments Ok {A} a.
Arguments Raise {A}.

Definition is_ascii (c : N) : bool := c <? 128.
Definition in_range (lo hi c : N) : bool := (lo <=? c) && (c <=? hi).

(** What the interpreter takes from its Unicode database and its
    configuration.  The tables are consulted for code points from 128 on. *)
Class PyRuntime := {
  (** [str.isspace], also the class [\s] of [re] *)
  uni_isspace : N → bool;
  (** [str.isalnum], the class [\w] of [re] without the underscore *)
  uni_isalnum : N → bool;
  (** [str.isdecimal], the class [\d] of [re] *)
  uni_isdecimal : N → bool;
  (** the value of a decimal digit, as [int] reads it *)
  uni_decimal_value : N → N;
  (** [str.upper] and [str.lower] on text that is not pure ASCII *)
  uni_upper : pystr → pystr;
  uni_lower : pystr → pystr;
  (** [sys.get_int_max_str_digits()]; 0 switches the limit off *)
  int_max_str_digits : N;
  (** [urllib.parse.urljoin]; it raises [ValueError] on some addresses *)
  urljoin : pystr → pystr → exc pystr;
  (** [Path(unquote(urlparse(u).path)).name] *)
  url_path_name : pystr → exc pystr
}.

Section Text.
Context `{PyRuntime}.

(** ASCII white space of [str.isspace]: TAB..CR, FS..US and the space. *)
Definition py_isspace (c : N) : bool :=
  if is_ascii c then in_range 9 13 c || in_range 28 32 c else uni_isspace c.

Definition ascii_alnum (c : N) : bool :=
  in_range 48 57 c || in_range 65 90 c || in_range 97 122 c.

(** [\w] *)
Definition re_word (c : N) : bool :=
  if is_ascii c then ascii_alnum c || (c =? 95) else uni_isalnum c.

(** [\d] *)
Definition re_digit (c : N) : bool :=
  if is_ascii c then in_range 48 57 c else uni_isdecimal c.

Definition ascii_upper (c : N) : N := if in_range 97 122 c then c - 32 else c.
Definition ascii_lower (c : N) : N := if in_range 65 90 c then c + 32 else c.

Definition py_upper (s : pystr) : pystr :=
  if forallb is_ascii s then ascii_upper <$> s else uni_upper s.

Definition py_lower (s : pystr) : pystr :=
  if forallb is_ascii s then ascii_lower <$> s else uni_lower s.

(** [s.lstrip(chars)], [s.rstrip(chars)], [s.strip(chars)] for a set of
    characters given as a predicate. *)
Fixpoint lstrip_by (p : N → bool) (s : pystr) : pystr :=
  match s with
  | [] => []
  | c :: s' => if p c then lstrip_by p s' else s
  end.

Definition rstrip_by (p : N → bool) (s : pystr) : pystr :=
  reverse (lstrip_by p (reverse s)).

Definition strip_by (p : N → bool) (s : pystr) : pystr :=
  rstrip_by p (lstrip_by p s).

(** [s.strip()] *)
Definition py_strip (s : pystr) : pystr := strip_by py_isspace s.

(** [c in chars] for the argument of [strip] *)
Definition one_of (chars : pystr) (c : N) : bool := existsb (N.eqb c) chars.

(** [s.startswith(p)] and [s.endswith(p)] *)
Fixpoint startswith (p s : pystr) : bool :=
  match p, s with
  | [], _ => true
  | a :: p', b :: s' => (a =? b) && startswith p' s'
  | _ :: _, [] => false
  end.

Definition endswith (p s : pystr) : bool := startswith (reverse p) (reverse s).

(** [p in s] *)
Fixpoint contains (p s : pystr) : bool :=
  startswith p s || match s with [] => false | _ :: s' => contains p s' end.

(** [re.sub(r"[^...]+", repl, s)], where [keep] is the bracket's class:
    every maximal run of characters outside the class becomes one [repl]. *)
Fixpoint re_sub_runs (keep : N → bool) (repl : pystr) (in_run : bool) (s : pystr)
  : pystr :=
  match s with
  | [] => []
  | c :: s' =>
      if keep c then c :: re_sub_runs keep repl false s'
      else if in_run then re_sub_runs keep repl true s'
      else repl ++ re_sub_runs keep repl true s'
  end.

(** The class [[\w.\-]] of [slugify]. *)
Definition slug_char (c : N) : bool := re_word c || (c =? 46) || (c =? 45).

(** [re.sub(r"[^\w.\-]+", "_", name.strip(), flags=re.UNICODE).strip("._")] *)
Definition slug_safe (name : pystr) : pystr :=
  strip_by (one_of (str "._"))
    (re_sub_runs slug_char (str "_") false (py_strip name)).

(** [x or default] on text *)
Definition or_else (x default : pystr) : pystr :=
  match x with [] => default | _ => x end.

Definition slugify (name : pystr) : pystr :=
  or_else (slug_safe name) (str "documento.pdf").

End Text.

(* ===================================================================== *)
(** ** The download ledger and its summary *)
(* ===================================================================== *)

Section Ledger.
Context `{PyRuntime}.

(** A CSV file as [csv.reader] yields it: rows of fields.  [None] is a file
    that does not exist. *)
Definition csv_rows := list (list pystr).

(** The header [run_download_month] writes. *)
Definition LOG_HEADER : list pystr :=
  [str "indice"; str "estado"; str "archivo"; str "detalle"].

(** [dict(zip(fieldnames, row))]: a later duplicate of a field name wins.
    The fields [DictReader] fills with [None] are left out: the source reads
    every field as [row.get(k) or ""]. *)
Definition dict_zip (fieldnames row : list pystr) : gmap pystr pystr :=
  foldl (λ d kv, <[kv.1 := kv.2]> d) ∅ (zip fieldnames row).

(** The rows [csv.DictReader] yields: the first row names the fields and
    empty rows are skipped. *)
Definition dict_reader (rows : csv_rows) : list (gmap pystr pystr) :=
  match rows with
  | [] => []
  | fieldnames :: data =>
      dict_zip fieldnames <$> filter (λ r, r ≠ []) data
  end.

(** [row.get(k) or ""] *)
Definition row_get (k : pystr) (row : gmap pystr pystr) : pystr :=
  default [] (row !! k).

(** [re.split(r"\d", name, maxsplit=1)[0]]: the text before the first digit. *)
Fixpoint before_first (p : N → bool) (s : pystr) : pystr :=
  match s with
  | [] => []
  | c :: s' => if p c then [] else c :: before_first p s'
  end.

(** The bucket key of an OK row. *)
Definition bucket_key (name : pystr) : pystr :=
  or_else (py_upper (strip_by (one_of (str "-_ ")) (before_first re_digit name)))
          (str "OTRO").

(** [prefixes[k] += 1] on a [Counter] *)
Definition counter_incr (k : pystr) (c : gmap pystr nat) : gmap pystr nat :=
  <[k := S (default 0%nat (c !! k))]> c.

(** One turn of the [for row in reader] loop. *)
Definition summarize_row (acc : nat * nat * gmap pystr nat) (row : gmap pystr pystr)
  : nat * nat * gmap pystr nat :=
  let '(ok_total, error_total, prefixes) := acc in
  let state := py_upper (py_strip (row_get (str "estado") row)) in
  let name := py_strip (row_get (str "archivo") row) in
  if bool_decide (state = str "OK") then
    (S ok_total, error_total, counter_incr (bucket_key name) prefixes)
  else if bool_decide (state = str "ERROR") then
    (ok_total, S error_total, prefixes)
  else acc.

Definition summarize_log (log_csv : option csv_rows) : nat * nat * gmap pystr nat :=
  match log_csv with
  | None => (0%nat, 0%nat, ∅)
  | Some rows => foldl summarize_row (0%nat, 0%nat, ∅) (dict_reader rows)
  end.

(** The data rows of a ledger: what [DictReader] yields after the header. *)
Definition data_rows (rows : csv_rows) : csv_rows :=
  filter (λ r, r ≠ []) (tail rows).

(** A row as the Month Runner appends it: index, state OK or ERROR, file
    name, detail. *)
Definition is_ledger_row (r : list pystr) : bool :=
  match r with
  | [_; estado; _; _] =>
      bool_decide (estado = str "OK") || bool_decide (estado = str "ERROR")
  | _ => false
  end.

(** A ledger file: the header, then ledger rows. *)
Definition is_ledger (rows : csv_rows) : bool :=
  match rows with
  | header :: data => bool_decide (header = LOG_HEADER) && forallb is_ledger_row data
  | [] => false
  end.

End Ledger.

(* ===================================================================== *)
(** ** The browser *)
(* ===================================================================== *)

(** How the source finds an element. *)
Inductive selector : Type :=
| Css (css : string)                    (* [page.locator(css)] *)
| ByRole (role name : string).          (* [page.get_by_role(role, name=...)] *)

Inductive locator : Type :=
| Loc (s : selector)
| First (s : selector).                 (* [.first] *)

#[global] Instance selector_eq_dec : EqDecision selector.
Proof. solve_decision. Defined.

#[global] Instance locator_eq_dec : EqDecision locator.
Proof. solve_decision. Defined.

(** [context.request.get(...)]'s answer: [resp.ok] and [resp.body()]. *)
Record Response : Type := {
  resp_ok : bool;
  resp_body : exc (list N)
}.

(** A [Download]: [d.suggested_filename]. *)
Record Download : Type := {
  suggested_filename : pystr
}.

(** The page and the disk behind it.  [W] is the state of the world; every
    call answers or raises and leaves a next world.

    [page_wait_frames w] are the polls of [page.wait_for_function] from [w]
    until its timeout (or until the page fails): for each poll, the
    [textContent] of the element [resultForm:pagText2] ([None] when the
    element is not in the document) and the world after it.
    [page_wait_expired w] is the world when no poll succeeded. *)
Class Browser (W : Type) := {
  locator_click : locator → bool → W → exc unit * W;
  locator_count : locator → W → exc nat * W;
  locator_get_attribute : locator → string → W → exc (option pystr) * W;
  locator_inner_text : locator → W → exc pystr * W;
  page_url : W → pystr;
  page_wait_frames : W → list (option pystr * W);
  page_wait_expired : W → W;
  page_wait_for_timeout : N → W → exc unit * W;
  request_get : pystr → W → exc Response * W;
  page_expect_download : W → exc unit * W;
  download_value : W → exc Download * W;
  download_save_as : Download → pystr → W → exc unit * W;
  path_write_bytes : pystr → list N → W → exc unit * W
}.

(** The calls made on the page, as recorded in the state.  A
    [WaitForFunction] carries the key waited against and the text on which
    the predicate held, [None] when the wait failed. *)
Inductive Call : Type :=
| Click (l : locator) (force : bool)
| Count (l : locator)
| GetAttribute (l : locator) (name : string)
| InnerText (l : locator)
| WaitForFunction (prev : pystr) (seen : option pystr)
| WaitForTimeout (ms : N)
| RequestGet (url : pystr)
| ExpectDownload
| DownloadValue
| SaveAs (name : pystr)
| WriteBytes (name : pystr).

#[global] Instance call_eq_dec : EqDecision Call.
Proof. solve_decision. Defined.

(** The state of one job: the world, the calls made so far (oldest first),
    the names present in the output directory, the rows of
    [descargas_log.csv] and the lines printed. *)
Record State (W : Type) : Type := mkState {
  world : W;
  calls : list Call;
  files : gset pystr;
  ledger : csv_rows;
  stdout : list pystr
}.
Arguments mkState {W}.
Arguments world {W}.
Arguments calls {W}.
Arguments files {W}.
Arguments ledger {W}.
Arguments stdout {W}.

(** A computation on the job state that returns or raises. *)
Definition M (W A : Type) : Type := State W → exc A * State W.

Definition ret {W A} (a : A) : M W A := λ st, (Ok a, st).

Definition bind {W A B} (m : M W A) (k : A → M W B) : M W B :=
  λ st, match m st with
        | (Ok a, st') => k a st'
        | (Raise, st') => (Raise, st')
        end.

(** [try: m except Exception: h] *)
Definition try_except {W A} (m h : M W A) : M W A :=
  λ st, match m st with
        | (Ok a, st') => (Ok a, st')
        | (Raise, st') => h st'
        end.

(** A value of the runtime that may raise. *)
Definition lift_exc {W A} (x : exc A) : M W A := λ st, (x, st).

Notation "'let*' x := m 'in' k" := (bind m (λ x, k))
  (at level 10, x name, m at level 100, k at level 200).
Notation "m >> k" := (bind m (λ _, k))
  (at level 100, k at level 200, right associativity).

Section Calls.
Context {W : Type} `{Browser W}.

(** One call on the world, recorded. *)
Definition call {A} (c : Call) (f : W → exc A * W) : M W A :=
  λ st, let '(r, w) := f (world st) in
        (r, mkState w (calls st ++ [c]) (files st) (ledger st) (stdout st)).

Definition click (l : locator) (force : bool) : M W unit :=
  call (Click l force) (locator_click l force).

Definition count (l : locator) : M W nat :=
  call (Count l) (locator_count l).

Definition get_attribute (l : locator) (name : string) : M W (option pystr) :=
  call (GetAttribute l name) (locator_get_attribute l name).

Definition inner_text (l : locator) : M W pystr :=
  call (InnerText l) (locator_inner_text l).

Definition wait_for_timeout (ms : N) : M W unit :=
  call (WaitForTimeout ms) (page_wait_for_timeout ms).

(** [print(line)] *)
Definition print (line : pystr) : M W unit :=
  λ st, (Ok (), mkState (world st) (calls st) (files st) (ledger st)
                        (stdout st ++ [line])).

End Calls.

(* ===================================================================== *)
(** ** The Result Paginator *)
(* ===================================================================== *)

(** White space of ECMAScript's [String.prototype.trim]. *)
Definition js_whitespace (c : N) : bool :=
  in_range 9 13 c || (c =? 32) || (c =? 160) || (c =? 5760)
  || in_range 8192 8202 c || (c =? 8232) || (c =? 8233) || (c =? 8239)
  || (c =? 8287) || (c =? 12288) || (c =? 65279).

Definition js_trim (s : pystr) : pystr := strip_by js_whitespace s.

Definition nonempty (s : pystr) : bool :=
  match s with [] => false | _ => true end.

(** The predicate [move_next_distinct] waits for, on what one poll sees:
    [!!el && el.textContent && el.textContent.trim() !== prev]. *)
Definition key_changed (prev : pystr) (seen : option pystr) : bool :=
  match seen with
  | None => false
  | Some text => nonempty text && negb (bool_decide (js_trim text = prev))
  end.

Definition KEY_TEXT : locator := First (Css "[id='resultForm:pagText2']").

Definition NEXT_SELECTORS : list locator :=
  [First (Css "[id='resultForm:j_idt217']");
   First (Css "[id$='j_idt217']");
   First (Css ".ui-paginator-next")].

Section Paginator.
Context `{PyRuntime} {W : Type} `{Browser W}.

(** [page.wait_for_function(pred, arg=prev, timeout=9000)]: the first poll
    on which the predicate holds ends the wait; with none it raises. *)
Definition wait_for_function (prev : pystr) : M W unit :=
  λ st,
    match find (λ f, key_changed prev f.1) (page_wait_frames (world st)) with
    | Some (seen, w) =>
        (Ok (), mkState w (calls st ++ [WaitForFunction prev seen])
                        (files st) (ledger st) (stdout st))
    | None =>
        (Raise, mkState (page_wait_expired (world st))
                        (calls st ++ [WaitForFunction prev None])
                        (files st) (ledger st) (stdout st))
    end.

Definition click_if_possible (l : locator) : M W unit :=
  try_except (click l false)
    (try_except (click l true) (ret ())).

Definition get_current_result_key : M W pystr :=
  try_except
    (let* text := inner_text KEY_TEXT in ret (py_strip text))
    (ret []).

(** The body of the [for sel in ...] loop of [click_next_result]: [true]
    is [return True], [false] is [continue]. *)
Definition try_next_control (loc : locator) : M W bool :=
  try_except
    (let* n := count loc in
     if Nat.eqb n 0 then ret false
     else
       let* cls := get_attribute loc "class" in
       if contains (str "disabled") (py_lower (default [] cls)) then ret false
       else click loc false >> ret true)
    (ret false).

Fixpoint click_next_from (sels : list locator) : M W bool :=
  match sels with
  | [] => ret false
  | loc :: rest =>
      let* clicked := try_next_control loc in
      if clicked then ret true else click_next_from rest
  end.

Definition click_next_result : M W bool := click_next_from NEXT_SELECTORS.

(** The wait of one attempt: [true] is [return True]. *)
Definition await_new_key (current_key : pystr) : M W bool :=
  if nonempty current_key then
    try_except (wait_for_function current_key >> ret true) (ret false)
  else ret false.

(** [attempts] turns of the [for _ in range(3)] loop. *)
Fixpoint move_next_attempts (attempts : nat) (current_key : pystr) : M W bool :=
  match attempts with
  | O => ret false
  | S n =>
      let* clicked := click_next_result in
      if negb clicked then move_next_attempts n current_key
      else
        let* moved := await_new_key current_key in
        if moved then ret true
        else
          try_except (wait_for_timeout 300) (ret ()) >>
          move_next_attempts n current_key
  end.

Definition move_next_distinct (current_key : pystr) : M W bool :=
  move_next_attempts 3 current_key.

End Paginator.

(* ===================================================================== *)
(** ** The Document Resolver *)
(* ===================================================================== *)

(** [str(n)] *)
Definition str_of_nat (n : nat) : pystr := str (NilZero.string_of_uint (Nat.to_uint n)).

(** [f"{idx:03d}"]: decimal, padded with zeros to three characters. *)
Definition fmt03 (idx : nat) : pystr :=
  let d := str_of_nat idx in
  replicate (3 - length d)%nat 48 ++ d.

(** [name.rfind(c)] *)
Fixpoint rfind (c : N) (s : pystr) : option nat :=
  match s with
  | [] => None
  | x :: s' =>
      match rfind c s' with
      | Some i => Some (S i)
      | None => if x =? c then Some O else None
      end
  end.

(** Where [pathlib] cuts a name into stem and suffix: the last dot, when it
    is neither the first nor the last character. *)
Definition suffix_index (name : pystr) : option nat :=
  match rfind 46 name with
  | Some i => if (Nat.ltb 0 i && Nat.ltb i (length name - 1))%nat then Some i else None
  | None => None
  end.

(** [Path(name).stem] and [Path(name).suffix] *)
Definition path_stem (name : pystr) : pystr :=
  match suffix_index name with Some i => take i name | None => name end.

Definition path_suffix (name : pystr) : pystr :=
  match suffix_index name with Some i => drop i name | None => [] end.

(** [b"%PDF"] *)
Definition PDF_MAGIC : list N := [37; 80; 68; 70].

Definition PDF_LINK : locator := First (ByRole "link" "Pdf").

(** [f"documento_{idx:03d}.pdf"] *)
Definition default_name (idx : nat) : pystr :=
  str "documento_" ++ fmt03 idx ++ str ".pdf".

(** [f"{dst.stem}_{idx:03d}{dst.suffix}"] *)
Definition renamed (fn : pystr) (idx : nat) : pystr :=
  path_stem fn ++ str "_" ++ fmt03 idx ++ path_suffix fn.

Section Resolver.
Context `{PyRuntime} {W : Type} `{Browser W}.

(** [dst.exists()], on the names of the output directory *)
Definition path_exists (name : pystr) : M W bool :=
  λ st, (Ok (bool_decide (name ∈ files st)), st).

(** The destination of a file named [fn] (a name inside the output
    directory):
    [dst = output_dir / fn]
    [if dst.exists(): dst = output_dir / f"{dst.stem}_{idx:03d}{dst.suffix}"] *)
Definition destination (fn : pystr) (idx : nat) : M W pystr :=
  let* taken := path_exists fn in
  ret (if taken then renamed fn idx else fn).

Definition add_file (name : pystr) (st : State W) : State W :=
  mkState (world st) (calls st) ({[name]} ∪ files st) (ledger st) (stdout st).

(** A write on the disk; the name is in the directory once it succeeded. *)
Definition disk_write (c : Call) (name : pystr) (f : W → exc unit * W) : M W unit :=
  λ st, match call c f st with
        | (Ok u, st') => (Ok u, add_file name st')
        | (Raise, st') => (Raise, st')
        end.

(** [dst.write_bytes(body)] *)
Definition write_bytes (dst : pystr) (body : list N) : M W unit :=
  disk_write (WriteBytes dst) dst (path_write_bytes dst body).

(** [d.save_as(dst)] *)
Definition save_as (d : Download) (dst : pystr) : M W unit :=
  disk_write (SaveAs dst) dst (download_save_as d dst).

(** The name strategy 1 gives the file:
    [slugify(n if n.lower().endswith(".pdf") else f"{n}.pdf")] for
    [n = Path(unquote(urlparse(full).path)).name or f"documento_{idx:03d}.pdf"]. *)
Definition fetched_name (path_name : pystr) (idx : nat) : pystr :=
  let n := or_else path_name (default_name idx) in
  slugify (if endswith (str ".pdf") (py_lower n) then n else n ++ str ".pdf").

(** The name strategy 2 gives the file:
    [slugify(d.suggested_filename or f"documento_{idx:03d}.pdf")]. *)
Definition download_name (d : Download) (idx : nat) : pystr :=
  slugify (or_else (suggested_filename d) (default_name idx)).

(** Strategy 1, the [try] block: [Some dst] is [return dst]; [None] is
    falling out of the block, also through [except Exception: pass]. *)
Definition direct_fetch (full : pystr) (idx : nat) : M W (option pystr) :=
  try_except
    (let* resp := call (RequestGet full) (request_get full) in
     if resp_ok resp then
       let* body := lift_exc (resp_body resp) in
       if startswith PDF_MAGIC body then
         let* n := lift_exc (url_path_name full) in
         let* dst := destination (fetched_name n idx) idx in
         write_bytes dst body >> ret (Some dst)
       else ret None
     else ret None)
    (ret None).

(** Strategy 2, the second [try] block. *)
Definition triggered_download (idx : nat) : M W (option pystr) :=
  try_except
    (call ExpectDownload page_expect_download >>
     click PDF_LINK false >>
     let* d := call DownloadValue download_value in
     let* dst := destination (download_name d idx) idx in
     save_as d dst >> ret (Some dst))
    (ret None).

(** [href and not href.lower().startswith("javascript")] *)
Definition usable_href (href : pystr) : bool :=
  nonempty href && negb (startswith (str "javascript") (py_lower href)).

Definition read_href : M W pystr :=
  try_except
    (let* h := get_attribute PDF_LINK "href" in ret (py_strip (default [] h)))
    (ret []).

Definition save_download (idx : nat) : M W (option pystr) :=
  let* href := read_href in
  let* fetched :=
    (if usable_href href then
       let* url := (λ st, (Ok (page_url (world st)), st)) in
       let* full := lift_exc (urljoin url href) in
       direct_fetch full idx
     else ret None) in
  match fetched with
  | Some dst => ret (Some dst)
  | None => triggered_download idx
  end.

End Resolver.

(* ===================================================================== *)
(** ** The Month Runner's row loop *)
(* ===================================================================== *)

Inductive quant : Type := Once | Star | Plus.

(** The prefixes of the longest run of [p] at the head of [s], longest
    first, each with the text left: the order a greedy repeat tries. *)
Fixpoint run_splits (p : N → bool) (s : pystr) : list (pystr * pystr) :=
  match s with
  | c :: s' =>
      if p c then ((λ mr, (c :: mr.1, mr.2)) <$> run_splits p s') ++ [([], s)]
      else [([], s)]
  | [] => [([], [])]
  end.

Definition candidates (p : N → bool) (q : quant) (s : pystr) : list (pystr * pystr) :=
  match q with
  | Once => match s with
            | c :: s' => if p c then [([c], s')] else []
            | [] => []
            end
  | Star => run_splits p s
  | Plus => filter (λ mr, mr.1 ≠ []) (run_splits p s)
  end.

Fixpoint first_some {A B} (f : A → option B) (l : list A) : option B :=
  match l with
  | [] => None
  | a :: l' => match f a with Some b => Some b | None => first_some f l' end
  end.

(** A backtracking match, at the head of [s], of a pattern that is a
    sequence of character classes with greedy repeats; the result is the
    text each item matched. *)
Fixpoint match_here (items : list ((N → bool) * quant)) (s : pystr)
  : option (list pystr) :=
  match items with
  | [] => Some []
  | (p, q) :: rest =>
      first_some (λ mr, (mr.1 ::.) <$> match_here rest mr.2) (candidates p q s)
  end.

(** [re.search]: the match at the leftmost position that has one. *)
Fixpoint re_search (items : list ((N → bool) * quant)) (s : pystr)
  : option (list pystr) :=
  match match_here items s with
  | Some groups => Some groups
  | None => match s with [] => None | _ :: s' => re_search items s' end
  end.

Inductive loop_ctl : Type := Break | Continue.

Section Runner.
Context `{PyRuntime} {W : Type} `{Browser W}.

(** [r"(\d+)\s*/\s*(\d+)"] *)
Definition POSITION_RE : list ((N → bool) * quant) :=
  [(re_digit, Plus); (py_isspace, Star); (N.eqb 47, Once);
   (py_isspace, Star); (re_digit, Plus)].

Definition digit_value (c : N) : N :=
  if is_ascii c then c - 48 else uni_decimal_value c.

(** [int(s)] on a run of decimal digits; it raises when the run is longer
    than the interpreter's limit. *)
Definition py_int (s : pystr) : exc N :=
  if negb (int_max_str_digits =? 0) && (int_max_str_digits <? N.of_nat (length s))
  then Raise
  else Ok (foldl (λ acc c, 10 * acc + digit_value c) 0 s).

(** [m = re.search(...)]; [(m.group(1), m.group(2))] *)
Definition search_position (pos_txt : pystr) : option (pystr * pystr) :=
  match re_search POSITION_RE pos_txt with
  | Some [g1; _; _; _; g2] => Some (g1, g2)
  | _ => None
  end.

(** [m and int(m.group(1)) >= int(m.group(2))] *)
Definition at_last_result (pos_txt : pystr) : exc bool :=
  match search_position pos_txt with
  | None => Ok false
  | Some (g1, g2) =>
      match py_int g1 with
      | Raise => Raise
      | Ok current =>
          match py_int g2 with
          | Raise => Raise
          | Ok total => Ok (total <=? current)
          end
      end
  end.

Definition LAST_RESULT_LINE : pystr :=
  str "Ultimo resultado alcanzado. Fin del proceso.".

(** [wr.writerow(row)] on the ledger opened for appending *)
Definition append_row (row : list pystr) : M W unit :=
  λ st, (Ok (), mkState (world st) (calls st) (files st) (ledger st ++ [row])
                        (stdout st)).

Definition ROW_DISPLAY : locator := First (Css "[id='resultForm:jurisTable:0:display']").
Definition MENU_BUTTON : locator := First (Css "[id='resultForm:j_idt234_menuButton']").
Definition ANY_MENU_BUTTON : locator := First (Css "[id$='menuButton']").

(** The ledger row of one result and the new [total_ok]. *)
Definition record_result (idx total_ok : nat) (saved : option pystr) : M W nat :=
  match saved with
  | Some name =>
      print (str "[" ++ str_of_nat idx ++ str "] Descargado: " ++ name) >>
      append_row [str_of_nat idx; str "OK"; name; []] >>
      ret (S total_ok)
  | None =>
      print (str "[" ++ str_of_nat idx ++ str "] Sin descarga PDF disponible.") >>
      append_row [str_of_nat idx; str "ERROR"; []; str "Sin PDF o timeout"] >>
      ret total_ok
  end.

(** The first half of the loop body: read the key, open the row and its
    menu, resolve the document, append the record.  It returns the key read
    at the start and the new [total_ok]. *)
Definition process_row (idx total_ok : nat) : M W (pystr * nat) :=
  let* key := get_current_result_key in
  click_if_possible ROW_DISPLAY >>
  let* n := count MENU_BUTTON in
  click_if_possible (if Nat.eqb n 0 then ANY_MENU_BUTTON else MENU_BUTTON) >>
  let* saved := save_download idx in
  let* total_ok' := record_result idx total_ok saved in
  ret (key, total_ok').

(** The second half: re-read the position and stop or advance. *)
Definition check_and_advance (key : pystr) : M W loop_ctl :=
  let* pos_txt := get_current_result_key in
  let* last := lift_exc (at_last_result pos_txt) in
  if last then print LAST_RESULT_LINE >> ret Break
  else
    let* moved := move_next_distinct key in
    if negb moved then
      print (str "No hay siguiente resultado para continuar.") >> ret Break
    else ret Continue.

(** One turn of [while True]. *)
Definition row_iteration (idx total_ok : nat) : M W (loop_ctl * nat) :=
  let* kt := process_row idx total_ok in
  let* ctl := check_and_advance kt.1 in
  ret (ctl, kt.2).

(** The loop from [idx, total_ok]; [None] when the fuel ran out, else the
    last index and the number of documents saved. *)
Fixpoint rows_loop (fuel idx total_ok : nat) : M W (option (nat * nat)) :=
  match fuel with
  | O => ret None
  | S fuel' =>
      let* r := row_iteration idx total_ok in
      match r.1 with
      | Break => ret (Some (idx, r.2))
      | Continue => rows_loop fuel' (S idx) r.2
      end
  end.

End Runner.

(** The loop as [run_download_month] starts it: [idx, total_ok = 1, 0]. *)
Definition run_rows `{PyRuntime} {W : Type} `{Browser W} (fuel : nat)
  : M W (option (nat * nat)) :=
  rows_loop fuel 1 0.

(* ===================================================================== *)
(** ** A simulated results site *)
(* ===================================================================== *)

(** A runtime for the examples: no character outside ASCII is in a class,
    [urljoin] is given absolute addresses, and the name of an address is the
    text after its last slash. *)
Fixpoint after_last_slash (s : pystr) : pystr :=
  match s with
  | [] => []
  | c :: s' => if existsb (N.eqb 47) s' then after_last_slash s'
               else if c =? 47 then s' else s
  end.

Definition plain_runtime : PyRuntime := {|
  uni_isspace := λ _, false;
  uni_isalnum := λ _, false;
  uni_isdecimal := λ _, false;
  uni_decimal_value := λ _, 0;
  uni_upper := λ s, s;
  uni_lower := λ s, s;
  int_max_str_digits := 4300;
  urljoin := λ _ href, Ok href;
  url_path_name := λ u, Ok (after_last_slash u)
|}.

(** A result list of [site_total] rows, showing row [site_current].  The
    position reads ["current / total"]; the first next-control is there
    while a row follows, and a click on it shows the next row.  The Pdf
    link has the address [site_href]; fetching it answers [site_reply];
    clicking it downloads a file whose suggested name is the row's entry in
    [site_names].  Two faults can be set: for the first [site_hidden]
    queries the next-control is not in the document yet, and on a
    [site_stuck] page a click on it changes nothing. *)
Record Site : Type := mkSite {
  site_current : nat;
  site_total : nat;
  site_names : list pystr;
  site_href : option pystr;
  site_reply : Response;
  site_hidden : nat;
  site_stuck : bool
}.

Definition site_position (w : Site) : pystr :=
  str_of_nat (site_current w) ++ str " / " ++ str_of_nat (site_total w).

Definition site_next (w : Site) : Site :=
  mkSite (S (site_current w)) (site_total w) (site_names w) (site_href w)
         (site_reply w) (site_hidden w) (site_stuck w).

Definition site_reveal (w : Site) : Site :=
  mkSite (site_current w) (site_total w) (site_names w) (site_href w)
         (site_reply w) (pred (site_hidden w)) (site_stuck w).

Definition NEXT_BUTTON : locator := First (Css "[id='resultForm:j_idt217']").

Definition site_click (l : locator) (w : Site) : exc unit * Site :=
  if bool_decide (l = NEXT_BUTTON) then
    if (site_current w <? site_total w)%nat
    then (Ok (), if site_stuck w then w else site_next w)
    else (Raise, w)
  else (Ok (), w).

Definition site_count (l : locator) (w : Site) : exc nat * Site :=
  if bool_decide (l = NEXT_BUTTON) then
    match site_hidden w with
    | S _ => (Ok 0%nat, site_reveal w)
    | O => (Ok (if (site_current w <? site_total w)%nat then 1%nat else 0%nat), w)
    end
  else if bool_decide (l ∈ NEXT_SELECTORS) then (Ok 0%nat, w)
  else (Ok 1%nat, w).

Definition site_attribute (l : locator) (name : string) (w : Site)
  : exc (option pystr) * Site :=
  if bool_decide (l = PDF_LINK) then (Ok (site_href w), w)
  else (Ok (Some (str "ui-button")), w).

Definition site_download (w : Site) : exc Download * Site :=
  match site_names w !! (site_current w - 1)%nat with
  | Some name => (Ok {| suggested_filename := name |}, w)
  | None => (Raise, w)
  end.

#[global] Instance site_browser : Browser Site := {|
  locator_click l _ w := site_click l w;
  locator_count := site_count;
  locator_get_attribute := site_attribute;
  locator_inner_text _ w := (Ok (site_position w), w);
  page_url _ := str "https://example.test/index.xhtml";
  page_wait_frames w := [(Some (site_position w), w)];
  page_wait_expired w := w;
  page_wait_for_timeout _ w := (Ok (), w);
  request_get _ w := (Ok (site_reply w), w);
  page_expect_download w := (Ok (), w);
  download_value := site_download;
  download_save_as _ _ w := (Ok (), w);
  path_write_bytes _ _ w := (Ok (), w)
|}.

(** The state a job starts its loop in: an empty output directory and a
    ledger holding the header. *)
Definition start {W : Type} (w : W) : State W :=
  mkState w [] ∅ [LOG_HEADER] [].

(** The pages and the ledger of the examples. *)

Definition no_reply : Response := {| resp_ok := false; resp_body := Raise |}.

(** An answer that is a web page, not a PDF: [<html>]. *)
Definition html_reply : Response :=
  {| resp_ok := true; resp_body := Ok [60; 104; 116; 109; 108; 62] |}.

(** The last row of a list of three: no next-control is present. *)
Definition last_row_site : Site := mkSite 3 3 [] None no_reply 0 false.

(** The first row of a list of three. *)
Definition first_row_site : Site := mkSite 1 3 [] None no_reply 0 false.

(** The first row of three, on a page whose next-control appears only at
    the second query. *)
Definition late_button_site : Site := mkSite 1 3 [] None no_reply 1 false.

(** The first row of three, on a page where the click changes nothing. *)
Definition stuck_site : Site := mkSite 1 3 [] None no_reply 0 true.

(** A list with a single result. *)
Definition single_result_site : Site :=
  mkSite 1 1 [str "T-1.pdf"] None no_reply 0 false.

(** A single result whose link has an address that answers with a web
    page. *)
Definition html_site : Site :=
  mkSite 1 1 [str "T-1.pdf"] (Some (str "https://docs.test/d/T-1.pdf"))
         html_reply 0 false.

(** Three results; the third file has the name of the first, and the second
    is named as the first would be renamed at index 3. *)
Definition collision_site : Site :=
  mkSite 1 3 [str "a.pdf"; str "a_003.pdf"; str "a.pdf"] None no_reply 0 false.

(** A single result whose download is not named as a PDF. *)
Definition docx_site : Site :=
  mkSite 1 1 [str "informe.docx"] None no_reply 0 false.

(** The ledger of the example: three files saved and one failure. *)
Definition example_ledger : csv_rows :=
  [LOG_HEADER;
   [str "1"; str "OK"; str "AUTO-123.pdf"; []];
   [str "2"; str "OK"; str "AUTO-456.pdf"; []];
   [str "3"; str "OK"; str "SENT_789.pdf"; []];
   [str "4"; str "ERROR"; []; str "Sin PDF o timeout"]].

(** The names written on the disk, in the order of the calls. *)
Definition written (cs : list Call) : list pystr :=
  omap (λ c, match c with
             | SaveAs name | WriteBytes name => Some name
             | _ => None
             end) cs.

(** ** Relations between the states before and after a computation *)

(** [m] takes every state to a state related to it by [R]. *)
Definition respects {W A} (R : relation (State W)) (m : M W A) : Prop :=
  ∀ st, R st (m st).2.

(** The ledger is the same. *)
Definition same_ledger {W} (st st' : State W) : Prop := ledger st' = ledger st.

(** The names in the output directory are the same. *)
Definition same_files {W} (st st' : State W) : Prop := files st' = files st.

(** The calls made before are still the head of the record. *)
Definition more_calls {W} (st st' : State W) : Prop :=
  calls st `prefix_of` calls st'.

(* ===================================================================== *)
(** ** The summary files *)
(* ===================================================================== *)

(** The order of [str]: by code points, a proper prefix first. *)
Fixpoint pystr_leb (a b : pystr) : bool :=
  match a, b with
  | [], _ => true
  | _ :: _, [] => false
  | x :: a', y :: b' => (x <? y) || ((x =? y) && pystr_leb a' b')
  end.

(** The sort key of [write_summary], [(-it[1], it[0])], compared as Python
    compares tuples: the larger count first, then the smaller key. *)
Definition summary_leb (a b : pystr * nat) : bool :=
  (b.2 <? a.2)%nat || ((a.2 =? b.2)%nat && pystr_leb a.1 b.1).

Definition summary_le (a b : pystr * nat) : Prop := summary_leb a b = true.

#[global] Instance summary_le_dec : RelDecision summary_le :=
  λ a b, decide (summary_leb a b = true).

(** [sorted(prefixes.items(), key=lambda it: (-it[1], it[0]))], on the
    items in the order the dict gives them. *)
Definition ordered (items : list (pystr * nat)) : list (pystr * nat) :=
  merge_sort summary_le items.

(** [f"{k}: {v}"] *)
Definition bucket_line (it : pystr * nat) : pystr :=
  it.1 ++ str ": " ++ str_of_nat it.2.

Definition NO_DATA_LINE : pystr := str "(sin datos)".

(** The [lines] of the text report. *)
Definition summary_lines (ok_total error_total : nat)
    (ordered_items : list (pystr * nat)) : list pystr :=
  [str "OK: " ++ str_of_nat ok_total;
   str "ERROR: " ++ str_of_nat error_total;
   str "POR PREFIJO:"]
  ++ match bucket_line <$> ordered_items with
     | [] => [NO_DATA_LINE]
     | bucket_lines => bucket_lines
     end.

(** ["\n".join(lines) + "\n"] *)
Definition join_lines (lines : list pystr) : pystr :=
  match lines with
  | [] => [10]
  | _ => flat_map (λ l, l ++ [10]) lines
  end.

(** The lines [write_summary] puts in [resumen_descargas.txt] for a ledger;
    the items of the counter are taken in the order of [map_to_list], which
    the sort makes irrelevant.  The JSON rendering of the same three values
    is not modelled. *)
Definition report_lines `{PyRuntime} (log_csv : option csv_rows) : list pystr :=
  let '(ok_total, error_total, prefixes) := summarize_log log_csv in
  summary_lines ok_total error_total (ordered (map_to_list prefixes)).

(** [prefixes[k]] on a [Counter]: a missing key counts zero. *)
Definition counter_get (k : pystr) (c : gmap pystr nat) : nat :=
  default 0%nat (c !! k).

(** [sum(prefixes.values())] *)
Definition counter_total (c : gmap pystr nat) : nat :=
  sum_list (snd <$> map_to_list c).

(** The accumulator [acc] of the summary is [acc0] with [delta] added: in
    the OK count, in the ERROR count and in every bucket. *)
Definition shifted (delta acc0 acc : nat * nat * gmap pystr nat) : Prop :=
  let '(a, b, q) := delta in
  let '(ok0, err0, p0) := acc0 in
  let '(ok, err, p) := acc in
  ok = (a + ok0)%nat ∧ err = (b + err0)%nat
  ∧ ∀ k, counter_get k p = (counter_get k q + counter_get k p0)%nat.

(** One item comes strictly before another in the summary: it has the
    larger count, or the same count and the smaller key. *)
Definition summary_before (a b : pystr * nat) : Prop :=
  (b.2 < a.2)%nat ∨ (a.2 = b.2 ∧ a.1 ≠ b.1 ∧ pystr_leb a.1 b.1 = true).

Definition is_digit (c : N) : bool := in_range 48 57 c.

(* ===================================================================== *)
(** ** Counting and classifying the calls of a computation *)
(* ===================================================================== *)

(** [m] makes at most [n] calls on the page. *)
Definition at_most {W A} (n : nat) (m : M W A) : Prop :=
  ∀ st, ∃ more, calls (m st).2 = calls st ++ more ∧ (length more ≤ n)%nat.

(** Every call made between [st] and [st'] is one that [P] allows. *)
Definition adds_only {W} (P : Call → Prop) (st st' : State W) : Prop :=
  ∃ more, calls st' = calls st ++ more ∧ Forall P more.

(** What [save_download] and its two strategies do to the output
    directory: a path is returned only for a file whose write was the last
    call and went through; with any other outcome the directory is as it
    was. *)
Definition writes_or_keeps {W} (m : M W (option pystr)) : Prop :=
  ∀ st,
    match (m st).1 with
    | Ok (Some dst) =>
        dst ∈ files (m st).2
        ∧ (last (calls (m st).2) = Some (WriteBytes dst)
           ∨ last (calls (m st).2) = Some (SaveAs dst))
    | _ => files (m st).2 = files st
    end.

(** A call that is not a network fetch. *)
Definition not_a_fetch (c : Call) : Prop := ∀ url, c ≠ RequestGet url.

(** A runtime like [plain_runtime] whose [urljoin] raises, as Python's does
    with [ValueError], on a reference with an unclosed bracket in its host. *)
Definition strict_runtime : PyRuntime := {|
  uni_isspace := λ _, false;
  uni_isalnum := λ _, false;
  uni_isdecimal := λ _, false;
  uni_decimal_value := λ _, 0;
  uni_upper := λ s, s;
  uni_lower := λ s, s;
  int_max_str_digits := 4300;
  urljoin := λ _ href, if startswith (str "//[") href then Raise else Ok href;
  url_path_name := λ u, Ok (after_last_slash u)
|}.

(** A single result whose link has such an address. *)
Definition bad_href_site : Site :=
  mkSite 1 1 [str "T-1.pdf"] (Some (str "//[")) no_reply 0 false.

(** A single result whose link is a script placeholder. *)
Definition script_href_site : Site :=
  mkSite 1 1 [str "T-1.pdf"] (Some (str "javascript:void(0)")) no_reply 0 false.

(* ===================================================================== *)
(** ** The rows the loop appends *)
(* ===================================================================== *)

(** The two rows [run_download_month] writes for an index. *)
Definition ok_row (idx : nat) (name : pystr) : list pystr :=
  [str_of_nat idx; str "OK"; name; []].

Definition error_row (idx : nat) : list pystr :=
  [str_of_nat idx; str "ERROR"; []; str "Sin PDF o timeout"].

Definition row_for (idx : nat) (row : list pystr) : Prop :=
  (∃ name, row = ok_row idx name) ∨ row = error_row idx.

(** Rows for the indices [idx], [idx + 1], ... in turn. *)
Fixpoint rows_from (idx : nat) (rows : list (list pystr)) : Prop :=
  match rows with
  | [] => True
  | row :: rest => row_for idx row ∧ rows_from (S idx) rest
  end.

(** The number of rows whose state is OK. *)
Definition count_ok (rows : list (list pystr)) : nat :=
  length (filter (λ r, r !! 1%nat = Some (str "OK")) rows).

(** [m] is one processed row: when it returns, it has appended the row of
    [idx] and counted it in [total_ok] if it is OK; when it raises, the
    ledger is as it was. *)
Definition appends_row {W} (idx total_ok : nat) (m : M W (pystr * nat)) : Prop :=
  ∀ st,
    match (m st).1 with
    | Ok (_, total_ok') =>
        ∃ row, ledger (m st).2 = ledger st ++ [row]
               ∧ row_for idx row
               ∧ total_ok' = (total_ok + count_ok [row])%nat
    | Raise => ledger (m st).2 = ledger st
    end.

(** What the loop, from [idx] and [total_ok], has done to the ledger with
    the outcome [r]: it appended rows for consecutive indices; and when it
    ended by itself, on the index [idx'] with the count [total_ok'], the
    rows are those of [idx .. idx'] and the count grew by the OK rows. *)
Definition loop_ledger {W} (idx total_ok : nat) (st : State W)
    (r : exc (option (nat * nat))) (st' : State W) : Prop :=
  ∃ rows,
    ledger st' = ledger st ++ rows
    ∧ rows_from idx rows
    ∧ ∀ idx' total_ok', r = Ok (Some (idx', total_ok')) →
        (idx + length rows = S idx')%nat
        ∧ total_ok' = (total_ok + count_ok rows)%nat.

(* ===================================================================== *)
(** ** The month of a job *)
(* ===================================================================== *)

Local Open Scope Z_scope.

(** [str(z)] of an [int] *)
Definition str_of_Z (z : Z) : pystr :=
  if z <? 0 then 45%N :: str_of_nat (Z.abs_nat z) else str_of_nat (Z.to_nat z).

(** [f"{z:0<width>d}"]: the sign, then zeros up to the width, then the
    digits. *)
Definition fmt_0d (width : nat) (z : Z) : pystr :=
  let d := str_of_nat (Z.abs_nat z) in
  if z <? 0 then 45%N :: replicate (width - 1 - length d)%nat 48%N ++ d
  else replicate (width - length d)%nat 48%N ++ d.

(** [calendar.isleap] *)
Definition isleap (year : Z) : bool :=
  (year mod 4 =? 0) && (negb (year mod 100 =? 0) || (year mod 400 =? 0)).

(** [calendar.mdays] *)
Definition mdays : list Z := [0; 31; 28; 31; 30; 31; 30; 31; 31; 30; 31; 30; 31].

(** [calendar.monthrange(year, month)[1]]; it raises [IllegalMonthError]
    for a month outside 1..12. *)
Definition month_days (year month : Z) : exc Z :=
  if (1 <=? month) && (month <=? 12) then
    Ok (default 0 (mdays !! Z.to_nat month)
        + if (month =? 2) && isleap year then 1 else 0)
  else Raise.

(** What [run_download_month] derives from its year and month before it
    opens the browser: the two dates of the filter and the name of the
    output directory under the root. *)
Record MonthJob : Type := {
  fecha_inicio : pystr;
  fecha_fin : pystr;
  output_dir_name : pystr
}.

Definition month_job (year month : Z) : exc MonthJob :=
  match month_days year month with
  | Raise => Raise
  | Ok last_day =>
      Ok {| fecha_inicio := str "01/" ++ fmt_0d 2 month ++ str "/" ++ str_of_Z year;
            fecha_fin := fmt_0d 2 last_day ++ str "/" ++ fmt_0d 2 month
                         ++ str "/" ++ str_of_Z year;
            output_dir_name := str "descargas_" ++ str_of_Z year ++ str "_"
                               ++ fmt_0d 2 month |}
  end.

(* ===================================================================== *)
(** ** The queue of the window *)
(* ===================================================================== *)

(** The fields of [App] that decide what runs: [running], [queue] and
    [stop_requested]; what the last [_set_controls(running)] left the
    buttons in; the months whose failure was shown in an error box.  Two
    records of the threads are added: [app_pending] holds the
    [_exec_month] threads started whose [_month_done] has not run yet, and
    [app_started] every thread started, oldest first.  The texts of the
    status line and of the log are not part of the state. *)
Record App : Type := mkApp {
  app_running : bool;
  app_queue : list (Z * Z);
  app_stop_requested : bool;
  app_controls_busy : bool;
  app_errors : list (Z * Z);
  app_pending : list (Z * Z);
  app_started : list (Z * Z)
}.

(** [App.__init__] *)
Definition app_init : App := mkApp false [] false false [] [] [].

(** [threading.Thread(target=self._exec_month, args=(year, month)).start()] *)
Definition start_thread (job : Z * Z) (a : App) : App :=
  mkApp (app_running a) (app_queue a) (app_stop_requested a)
        (app_controls_busy a) (app_errors a)
        (app_pending a ++ [job]) (app_started a ++ [job]).

Definition _run_month (year month : Z) (a : App) : App :=
  if app_running a then a
  else start_thread (year, month)
         (mkApp true [] false true (app_errors a) (app_pending a) (app_started a)).

(** [[(year, m) for m in range(2, 13)]] *)
Definition rest_of_year (year : Z) : list (Z * Z) :=
  (λ m, (year, Z.of_nat m)) <$> seq 2 11.

Definition _run_year (year : Z) (a : App) : App :=
  if app_running a then a
  else start_thread (year, 1)
         (mkApp true (rest_of_year year) false true (app_errors a)
                (app_pending a) (app_started a)).

Definition _stop (a : App) : App :=
  mkApp (app_running a) [] true (app_controls_busy a) (app_errors a)
        (app_pending a) (app_started a).

Definition _month_done (year month rc : Z) (a : App) : App :=
  if negb (rc =? 0) then
    mkApp false [] (app_stop_requested a) false (app_errors a ++ [(year, month)])
          (app_pending a) (app_started a)
  else
    match app_queue a with
    | job :: rest =>
        if negb (app_stop_requested a) then
          start_thread job
            (mkApp (app_running a) rest (app_stop_requested a)
                   (app_controls_busy a) (app_errors a) (app_pending a)
                   (app_started a))
        else
          mkApp false [] (app_stop_requested a) false (app_errors a)
                (app_pending a) (app_started a)
    | [] =>
        mkApp false [] (app_stop_requested a) false (app_errors a)
              (app_pending a) (app_started a)
    end.

(** What happens to the window: a click on a month, on a year or on the
    stop button, or the end of the [i]-th pending thread, whose subprocess
    returned [rc] and which then has [_month_done] run. *)
Inductive Event : Type :=
| ClickMonth (year month : Z)
| ClickYear (year : Z)
| ClickStop
| Finished (i : nat) (rc : Z).

Definition forget_thread (i : nat) (a : App) : App :=
  mkApp (app_running a) (app_queue a) (app_stop_requested a)
        (app_controls_busy a) (app_errors a)
        (delete i (app_pending a)) (app_started a).

(** One event; [None] when no such thread is pending. *)
Definition app_step (e : Event) (a : App) : option App :=
  match e with
  | ClickMonth year month => Some (_run_month year month a)
  | ClickYear year => Some (_run_year year a)
  | ClickStop => Some (_stop a)
  | Finished i rc =>
      match app_pending a !! i with
      | Some (year, month) => Some (_month_done year month rc (forget_thread i a))
      | None => None
      end
  end.

Fixpoint app_run (es : list Event) (a : App) : option App :=
  match es with
  | [] => Some a
  | e :: es' =>
      match app_step e a with
      | Some a' => app_run es' a'
      | None => None
      end
  end.

(** The window is consistent: at most one month is being downloaded, it is
    running exactly while one is, the buttons show it, and nothing is
    queued while it is idle. *)
Definition app_consistent (a : App) : Prop :=
  (length (app_pending a) ≤ 1)%nat
  ∧ (app_running a = true ↔ app_pending a ≠ [])
  ∧ app_controls_busy a = app_running a
  ∧ (app_running a = false → app_queue a = []).

Local Close Scope Z_scope.

(** The examples of the further properties. *)

(** The job of November 2025. *)
Definition november_2025 : MonthJob :=
  {| fecha_inicio := str "01/11/2025";
     fecha_fin := str "30/11/2025";
     output_dir_name := str "descargas_2025_11" |}.

(** The window while the third month of 2025 is being downloaded. *)
Definition third_month_running : App :=
  mkApp true ((λ m, (2025%Z, Z.of_nat m)) <$> seq 4 9) false true []
        [(2025, 3)%Z] [(2025, 1); (2025, 2); (2025, 3)]%Z.

(* ===================================================================== *)
(** * Properties *)
(* ===================================================================== *)

(** ** Text *)

Section TextFacts.
Context `{PyRuntime}.

Lemma lstrip_by_suffix p s : lstrip_by p s `suffix_of` s.
Proof.
  induction s as [|c s IH]; simpl; [done|].
  destruct (p c); [by apply suffix_cons_r | done].
Qed.

Lemma lstrip_by_head p s c : head (lstrip_by p s) = Some c → p c = false.
Proof.
  induction s as [|x s IH]; simpl; [done|].
  destruct (p x) eqn:Hx; [done|]. simpl. by intros [= <-].
Qed.

Lemma rstrip_by_prefix p s : rstrip_by p s `prefix_of` s.
Proof.
  unfold rstrip_by.
  rewrite <- (reverse_involutive s) at 2.
  apply suffix_prefix_reverse, lstrip_by_suffix.
Qed.

Lemma rstrip_by_last p s c : last (rstrip_by p s) = Some c → p c = false.
Proof. unfold rstrip_by. rewrite last_reverse. apply lstrip_by_head. Qed.

Lemma strip_by_last p s c : last (strip_by p s) = Some c → p c = false.
Proof. apply rstrip_by_last. Qed.

Lemma strip_by_head p s c : head (strip_by p s) = Some c → p c = false.
Proof.
  unfold strip_by. intros Hc.
  destruct (rstrip_by_prefix p (lstrip_by p s)) as [k Hk].
  apply (lstrip_by_head p s). rewrite Hk.
  destruct (rstrip_by p (lstrip_by p s)); [done|]. exact Hc.
Qed.

Lemma strip_by_Forall (P : N → Prop) p s : Forall P s → Forall P (strip_by p s).
Proof.
  intros Hs. unfold strip_by.
  destruct (lstrip_by_suffix p s) as [k1 Hk1].
  destruct (rstrip_by_prefix p (lstrip_by p s)) as [k2 Hk2].
  rewrite Hk1, Hk2 in Hs.
  by apply Forall_app in Hs as [_ [Hs _]%Forall_app].
Qed.

Lemma re_sub_runs_Forall keep repl in_run s :
  Forall (λ c, keep c = true ∨ c ∈ repl) (re_sub_runs keep repl in_run s).
Proof.
  revert in_run. induction s as [|c s IH]; intros in_run; simpl; [constructor|].
  destruct (keep c) eqn:Hc.
  - constructor; [by left | apply IH].
  - destruct in_run; [apply IH|].
    apply Forall_app; split; [|apply IH].
    apply Forall_forall; intros x Hx; by right.
Qed.

Lemma one_of_true chars c : c ∈ chars → one_of chars c = true.
Proof.
  intros Hc. unfold one_of. apply existsb_exists. exists c.
  split; [by apply list_elem_of_In | apply N.eqb_refl].
Qed.

(** Every character of a slug is a word character, a dot or a hyphen. *)
Lemma slug_safe_chars name :
  Forall (λ c, re_word c = true ∨ c = 46 ∨ c = 45) (slug_safe name).
Proof.
  unfold slug_safe. apply strip_by_Forall.
  eapply Forall_impl; [apply re_sub_runs_Forall|].
  intros c [Hc | Hc]; simpl in *.
  - unfold slug_char in Hc.
    apply orb_true_iff in Hc as [Hc | Hc]; [apply orb_true_iff in Hc as [Hc | Hc]|].
    + by left.
    + right; left. by apply N.eqb_eq.
    + right; right. by apply N.eqb_eq.
  - left. apply list_elem_of_singleton in Hc as ->. reflexivity.
Qed.

Lemma default_name_not_fixed idx : str "documento.pdf" ≠ default_name idx.
Proof.
  unfold default_name. intros E.
  apply (f_equal (λ l, l !! 9%nat)) in E. vm_compute in E. discriminate.
Qed.

(** C10: for every input text, [slugify] returns a name that is not empty,
    is made only of word characters, dots and hyphens, and neither starts
    nor ends with a dot or an underscore; when sanitising leaves nothing,
    the name is the fixed ["documento.pdf"], which is none of the
    index-based default names. *)
Theorem slugify_wellformed (name : pystr) :
  slugify name ≠ []
  ∧ Forall (λ c, re_word c = true ∨ c = 46 ∨ c = 45) (slugify name)
  ∧ (∀ c, head (slugify name) = Some c → c ≠ 46 ∧ c ≠ 95)
  ∧ (∀ c, last (slugify name) = Some c → c ≠ 46 ∧ c ≠ 95)
  ∧ (slug_safe name = [] →
     slugify name = str "documento.pdf"
     ∧ ∀ idx, slugify name ≠ default_name idx).
Proof.
  unfold slugify, or_else.
  destruct (slug_safe name) as [|c0 safe] eqn:Hsafe.
  - split; [by vm_compute|].
    split; [vm_compute; repeat (constructor; [tauto|]); constructor|].
    split; [vm_compute; intros c [= <-]; by split|].
    split; [vm_compute; intros c [= <-]; by split|].
    intros _. split; [done | apply default_name_not_fixed].
  - split; [done|].
    split; [rewrite <- Hsafe; apply slug_safe_chars|].
    assert (Hsep : ∀ c, one_of (str "._") c = false → c ≠ 46 ∧ c ≠ 95).
    { intros c Hc. split; intros ->; by vm_compute in Hc. }
    split; [|split; [|done]].
    + intros c Hc. apply Hsep. rewrite <- Hsafe in Hc.
      by apply strip_by_head in Hc.
    + intros c Hc. apply Hsep. rewrite <- Hsafe in Hc.
      by apply strip_by_last in Hc.
Qed.

End TextFacts.

(** ** The summary *)

Section LedgerFacts.
Context `{PyRuntime}.

(** Under the runner's header, the field [estado] of a four-field row is
    its second field. *)
Lemma ledger_row_estado i estado archivo detalle :
  row_get (str "estado") (dict_zip LOG_HEADER [i; estado; archivo; detalle])
  = estado.
Proof.
  unfold row_get, dict_zip, LOG_HEADER. simpl.
  rewrite lookup_insert_ne by (by vm_compute).
  rewrite lookup_insert_ne by (by vm_compute).
  by rewrite lookup_insert_eq.
Qed.

(** A ledger row is counted once, as OK or as ERROR. *)
Lemma summarize_row_counts acc r :
  is_ledger_row r = true →
  let '(ok0, err0, _) := acc in
  let '(ok1, err1, _) := summarize_row acc (dict_zip LOG_HEADER r) in
  (ok1 + err1 = S (ok0 + err0))%nat.
Proof.
  destruct acc as [[ok0 err0] prefixes].
  destruct r as [|i [|estado [|archivo [|detalle [|]]]]]; try done.
  intros Hr. simpl in Hr. unfold summarize_row.
  rewrite ledger_row_estado.
  apply orb_true_iff in Hr as [->%bool_decide_eq_true | ->%bool_decide_eq_true].
  - replace (py_upper (py_strip (str "OK"))) with (str "OK") by (by vm_compute).
    rewrite bool_decide_eq_true_2 by done. lia.
  - replace (py_upper (py_strip (str "ERROR"))) with (str "ERROR")
      by (by vm_compute).
    rewrite bool_decide_eq_false_2 by (by vm_compute).
    rewrite bool_decide_eq_true_2 by done. lia.
Qed.

Lemma summarize_rows_counts data acc :
  forallb is_ledger_row data = true →
  let '(ok0, err0, _) := acc in
  let '(ok1, err1, _) := foldl summarize_row acc (dict_zip LOG_HEADER <$> data) in
  (ok1 + err1 = ok0 + err0 + length data)%nat.
Proof.
  revert acc. induction data as [|r data IH]; intros acc Hdata.
  - destruct acc as [[ok0 err0] prefixes]. simpl. lia.
  - simpl in Hdata. apply andb_true_iff in Hdata as [Hr Hdata].
    simpl. specialize (IH (summarize_row acc (dict_zip LOG_HEADER r)) Hdata).
    pose proof (summarize_row_counts acc r Hr) as Hstep.
    destruct acc as [[ok0 err0] prefixes].
    destruct (summarize_row _ _) as [[ok1 err1] prefixes1].
    destruct (foldl _ _ _) as [[ok2 err2] prefixes2].
    simpl. lia.
Qed.

Lemma ledger_rows_not_empty data :
  forallb is_ledger_row data = true → filter (λ r, r ≠ []) data = data.
Proof.
  induction data as [|r data IH]; [done|]. simpl.
  intros [Hr Hdata]%andb_true_iff.
  rewrite filter_cons_True by (by destruct r). by rewrite IH.
Qed.

(** C7: on every ledger file (the runner's header, then rows whose state
    is OK or ERROR), the count of OK rows plus the count of ERROR rows that
    [summarize_log] returns is the number of data rows. *)
Theorem summarize_log_counts_every_row (rows : csv_rows) :
  is_ledger rows = true →
  let '(ok_total, error_total, _) := summarize_log (Some rows) in
  (ok_total + error_total)%nat = length (data_rows rows).
Proof.
  destruct rows as [|header data]; [done|]. simpl.
  intros [->%bool_decide_eq_true Hdata]%andb_true_iff.
  unfold data_rows. simpl. rewrite ledger_rows_not_empty by done.
  pose proof (summarize_rows_counts data (0%nat, 0%nat, ∅) Hdata) as Hsum.
  simpl in Hsum. destruct (foldl _ _ _) as [[ok err] prefixes]. lia.
Qed.

(** A row in any other state is counted in neither total. *)
Lemma summarize_row_other_state acc row :
  py_upper (py_strip (row_get (str "estado") row)) ≠ str "OK" →
  py_upper (py_strip (row_get (str "estado") row)) ≠ str "ERROR" →
  summarize_row acc row = acc.
Proof.
  intros Hok Herr. destruct acc as [[ok err] prefixes]. unfold summarize_row.
  by rewrite !bool_decide_eq_false_2.
Qed.

(** [before_first p s] is the run of [s] up to its first character in [p]. *)
Lemma before_first_split p s :
  ∃ rest, s = before_first p s ++ rest
    ∧ Forall (λ c, p c = false) (before_first p s)
    ∧ match rest with [] => True | d :: _ => p d = true end.
Proof.
  induction s as [|c s (rest & Hs & Hrun & Hrest)]; simpl.
  - by exists [].
  - destruct (p c) eqn:Hc.
    + by exists (c :: s).
    + exists rest. split; [simpl; by f_equal|]. split; [by constructor | done].
Qed.

(** C8: the ledger with the rows OK AUTO-123.pdf, OK AUTO-456.pdf,
    OK SENT_789.pdf and ERROR gives ok = 3, error = 1 and the counts
    AUTO: 2, SENT: 1; the bucket key of a name is the text before its first
    digit, stripped of hyphens, underscores and spaces, in upper case, with
    OTRO in place of the empty key. *)
Theorem summarize_log_example :
  summarize_log (Some example_ledger)
  = (3%nat, 1%nat, {[ str "AUTO" := 2%nat; str "SENT" := 1%nat ]})
  ∧ bucket_key (str "AUTO-123.pdf") = str "AUTO"
  ∧ bucket_key (str "SENT_789.pdf") = str "SENT"
  ∧ bucket_key (str "2024-01.pdf") = str "OTRO"
  ∧ ∀ name, ∃ run rest,
      name = run ++ rest
      ∧ Forall (λ c, re_digit c = false) run
      ∧ match rest with [] => True | d :: _ => re_digit d = true end
      ∧ bucket_key name
        = or_else (py_upper (strip_by (one_of (str "-_ ")) run)) (str "OTRO").
Proof.
  split; [by vm_compute|].
  split; [by vm_compute|].
  split; [by vm_compute|].
  split; [by vm_compute|].
  intros name. destruct (before_first_split re_digit name) as (rest & ? & ? & ?).
  by exists (before_first re_digit name), rest.
Qed.

End LedgerFacts.

(** ** The Result Paginator *)

Section PaginatorFacts.
Context `{PyRuntime} {W : Type} `{Browser W}.

Lemma try_next_control_returns loc (st : State W) :
  ∃ b, (try_next_control loc st).1 = Ok b.
Proof.
  unfold try_next_control, try_except.
  destruct (bind _ _ st) as [[b|] st']; simpl; eauto.
Qed.

Lemma click_next_from_returns sels (st : State W) :
  ∃ b, (click_next_from sels st).1 = Ok b.
Proof.
  revert st. induction sels as [|loc rest IH]; intros st; simpl.
  - by exists false.
  - unfold bind at 1.
    destruct (try_next_control_returns loc st) as [b Hb].
    destruct (try_next_control loc st) as [r st']. simpl in Hb. subst r.
    destruct b; [by exists true | apply IH].
Qed.

(** [click_next_result] never raises. *)
Lemma click_next_result_returns (st : State W) :
  ∃ b st', click_next_result st = (Ok b, st').
Proof.
  destruct (click_next_from_returns NEXT_SELECTORS st) as [b Hb].
  unfold click_next_result. destruct (click_next_from _ st) as [r st'].
  simpl in Hb. subst r. eauto.
Qed.

Lemma pause_returns (st : State W) :
  ∃ st', try_except (wait_for_timeout 300) (ret ()) st = (Ok (), st').
Proof.
  unfold try_except. destruct (wait_for_timeout 300 st) as [[[]|] st']; eauto.
Qed.

(** The wait reports a new key only on a poll whose text is not empty and,
    once trimmed, is not the previous key. *)
Lemma await_new_key_true key (st st' : State W) :
  await_new_key key st = (Ok true, st') →
  ∃ text, last (calls st') = Some (WaitForFunction key (Some text))
          ∧ text ≠ [] ∧ js_trim text ≠ key.
Proof.
  unfold await_new_key. destruct (nonempty key); [|by intros [=]].
  unfold try_except, bind, wait_for_function.
  destruct (find _ _) as [[seen w]|] eqn:Hfind; [|by intros [=]].
  apply find_some in Hfind as [_ Hseen]. simpl in Hseen.
  destruct seen as [text|]; [|done]. simpl in Hseen.
  apply andb_true_iff in Hseen as [Htext Hnew].
  apply negb_true_iff, bool_decide_eq_false in Hnew.
  intros [= <-]. simpl. exists text. rewrite last_snoc.
  split; [done|]. split; [by destruct text | done].
Qed.

Lemma move_next_attempts_true n key (st st' : State W) :
  move_next_attempts n key st = (Ok true, st') →
  ∃ text, last (calls st') = Some (WaitForFunction key (Some text))
          ∧ text ≠ [] ∧ js_trim text ≠ key.
Proof.
  revert st. induction n as [|n IH]; intros st; cbn [move_next_attempts].
  - by intros [=].
  - unfold bind at 1.
    destruct (click_next_result st) as [[[|]|] st1]; cbn [negb]; [| apply IH | done].
    unfold bind at 1.
    destruct (await_new_key key st1) as [[[|]|] st2] eqn:Hwait; [| | done].
    + intros [= <-]. by apply await_new_key_true in Hwait.
    + unfold bind at 1.
      destruct (try_except _ _ st2) as [[u|] st3]; [apply IH | done].
Qed.

(** C1: whatever the page does, [move_next_distinct] returns true only
    when its wait saw the position element with a text which, trimmed, is
    not the key passed in; a click on a next-control alone is not enough. *)
Theorem move_next_distinct_true_only_on_new_key
    (previousKey : pystr) (st st' : State W) :
  move_next_distinct previousKey st = (Ok true, st') →
  ∃ text, last (calls st') = Some (WaitForFunction previousKey (Some text))
          ∧ text ≠ [] ∧ js_trim text ≠ previousKey.
Proof. apply move_next_attempts_true. Qed.

Lemma move_next_attempts_unknown_key n (st : State W) :
  (move_next_attempts n [] st).1 = Ok false.
Proof.
  revert st. induction n as [|n IH]; intros st; cbn [move_next_attempts]; [done|].
  unfold bind at 1.
  destruct (click_next_result_returns st) as (clicked & st1 & ->).
  destruct clicked; cbn [negb]; [|apply IH].
  unfold bind at 1. cbn [await_new_key nonempty ret].
  unfold bind at 1.
  destruct (pause_returns st1) as [st2 ->]. apply IH.
Qed.

(** C9: called with the empty key, [move_next_distinct] returns false on
    every page, also when its clicks on a next-control succeed and the
    position shown changes. *)
Theorem move_next_distinct_unknown_key_false (st : State W) :
  (move_next_distinct [] st).1 = Ok false.
Proof. apply move_next_attempts_unknown_key. Qed.

(** C4, as the code has it: when the activation fails, it is tried again
    at once; after three failed activations in a row the result is false,
    and nothing else was called on the page. *)
Theorem move_next_distinct_three_failed_activations
    (current_key : pystr) (st st1 st2 st3 : State W) :
  click_next_result st = (Ok false, st1) →
  click_next_result st1 = (Ok false, st2) →
  click_next_result st2 = (Ok false, st3) →
  move_next_distinct current_key st = (Ok false, st3).
Proof.
  intros H1 H2 H3. unfold move_next_distinct. cbn [move_next_attempts].
  unfold bind. rewrite H1. cbn [negb]. rewrite H2. cbn [negb].
  by rewrite H3.
Qed.

End PaginatorFacts.

(** ** What a computation leaves untouched *)

Section Frames.
Context {W : Type} (R : relation (State W)) `{!PreOrder R}.

Lemma respects_ret {A} (a : A) : respects R (ret a).
Proof. intros st. reflexivity. Qed.

Lemma respects_lift_exc {A} (x : exc A) : respects R (lift_exc x).
Proof. intros st. reflexivity. Qed.

Lemma respects_bind {A B} (m : M W A) (k : A → M W B) :
  respects R m → (∀ a, respects R (k a)) → respects R (bind m k).
Proof.
  intros Hm Hk st. unfold bind. specialize (Hm st).
  destruct (m st) as [[a|] st']; simpl in *; [|done].
  etrans; [exact Hm | apply Hk].
Qed.

Lemma respects_try_except {A} (m h : M W A) :
  respects R m → respects R h → respects R (try_except m h).
Proof.
  intros Hm Hh st. unfold try_except. specialize (Hm st).
  destruct (m st) as [[a|] st']; simpl in *; [done|].
  etrans; [exact Hm | apply Hh].
Qed.

End Frames.

#[global] Instance same_ledger_preorder {W} : PreOrder (@same_ledger W).
Proof. split; [by intros st | intros s1 s2 s3; unfold same_ledger; congruence]. Qed.

#[global] Instance same_files_preorder {W} : PreOrder (@same_files W).
Proof. split; [by intros st | intros s1 s2 s3; unfold same_files; congruence]. Qed.

#[global] Instance more_calls_preorder {W} : PreOrder (@more_calls W).
Proof.
  split; [intros st; by unfold more_calls|].
  intros s1 s2 s3. unfold more_calls. intros H12 H23. by etrans.
Qed.

Create HintDb frame.

#[global] Hint Resolve same_ledger_preorder same_files_preorder
  more_calls_preorder respects_ret respects_lift_exc respects_bind
  respects_try_except : frame.
#[global] Hint Extern 2 (respects _ (if ?b then _ else _)) => destruct b : frame.
#[global] Hint Extern 2 (respects _ (match ?x with _ => _ end)) => destruct x : frame.

Section PrimitiveFrames.
Context `{PyRuntime} {W : Type} `{Browser W}.

Lemma call_same_ledger {A} c (f : W → exc A * W) : respects same_ledger (call c f).
Proof. intros st. unfold call. by destruct (f (world st)). Qed.

Lemma call_same_files {A} c (f : W → exc A * W) : respects same_files (call c f).
Proof. intros st. unfold call. by destruct (f (world st)). Qed.

Lemma call_calls {A} c (f : W → exc A * W) (st : State W) :
  calls (call c f st).2 = calls st ++ [c].
Proof. unfold call. by destruct (f (world st)). Qed.

Lemma call_more_calls {A} c (f : W → exc A * W) : respects more_calls (call c f).
Proof. intros st. unfold more_calls. rewrite call_calls. by apply prefix_app_r. Qed.

Lemma print_same_ledger line : respects same_ledger (print (W:=W) line).
Proof. by intros st. Qed.

Lemma print_same_files line : respects same_files (print (W:=W) line).
Proof. by intros st. Qed.

Lemma print_more_calls line : respects more_calls (print (W:=W) line).
Proof. intros st. by unfold more_calls. Qed.

Lemma path_exists_same_ledger name : respects same_ledger (path_exists (W:=W) name).
Proof. by intros st. Qed.

Lemma path_exists_more_calls name : respects more_calls (path_exists (W:=W) name).
Proof. intros st. by unfold more_calls. Qed.

Lemma disk_write_same_ledger c name (f : W → exc unit * W) : respects same_ledger (disk_write c name f).
Proof.
  intros st. unfold disk_write. pose proof (call_same_ledger c f st) as Hc.
  by destruct (call c f st) as [[u|] st'].
Qed.

Lemma disk_write_more_calls c name (f : W → exc unit * W) : respects more_calls (disk_write c name f).
Proof.
  intros st. unfold disk_write. pose proof (call_more_calls c f st) as Hc.
  by destruct (call c f st) as [[u|] st'].
Qed.

Lemma wait_for_function_same_ledger prev :
  respects same_ledger (wait_for_function (W:=W) prev).
Proof. intros st. unfold wait_for_function. by destruct (find _ _) as [[seen w]|]. Qed.

Lemma wait_for_function_more_calls prev :
  respects more_calls (wait_for_function (W:=W) prev).
Proof.
  intros st. unfold wait_for_function, more_calls.
  destruct (find _ _) as [[seen w]|]; simpl; by apply prefix_app_r.
Qed.

Lemma read_url_same_ledger :
  respects same_ledger (λ st : State W, (Ok (page_url (world st)), st)).
Proof. by intros st. Qed.

Lemma read_url_more_calls :
  respects more_calls (λ st : State W, (Ok (page_url (world st)), st)).
Proof. intros st. by unfold more_calls. Qed.

End PrimitiveFrames.

#[global] Hint Resolve call_same_ledger call_same_files call_more_calls
  print_same_ledger print_same_files print_more_calls
  path_exists_same_ledger path_exists_more_calls
  disk_write_same_ledger disk_write_more_calls
  wait_for_function_same_ledger wait_for_function_more_calls
  read_url_same_ledger read_url_more_calls : frame.

(** The proof that a function built from the primitives respects a
    relation: unfold it down to the primitives and combine their lemmas. *)
Ltac frame :=
  unfold click, count, get_attribute, inner_text, wait_for_timeout,
    write_bytes, save_as, destination;
  auto 20 with frame.

(** ** The Document Resolver *)

Section ResolverFacts.
Context `{PyRuntime} {W : Type} `{Browser W}.

Lemma read_href_state (st : State W) :
  (read_href st).2
  = (call (GetAttribute PDF_LINK "href")
          (locator_get_attribute PDF_LINK "href") st).2.
Proof.
  unfold read_href, try_except, bind, get_attribute, ret.
  by destruct (call _ _ st) as [[h|] st'].
Qed.

Lemma triggered_download_same_ledger idx :
  respects same_ledger (triggered_download (W:=W) idx).
Proof. unfold triggered_download. frame. Qed.

Lemma triggered_download_more_calls idx :
  respects more_calls (triggered_download (W:=W) idx).
Proof. unfold triggered_download. frame. Qed.

Lemma direct_fetch_same_ledger full idx :
  respects same_ledger (direct_fetch (W:=W) full idx).
Proof. unfold direct_fetch. frame. Qed.

Lemma save_download_same_ledger idx :
  respects same_ledger (save_download (W:=W) idx).
Proof.
  unfold save_download, read_href.
  pose proof triggered_download_same_ledger. pose proof direct_fetch_same_ledger.
  frame.
Qed.

(** The fallback begins by listening for a download. *)
Lemma triggered_download_first_call idx (st : State W) :
  ∃ more, calls (triggered_download idx st).2 = calls st ++ ExpectDownload :: more.
Proof.
  unfold triggered_download, try_except. unfold bind at 1.
  pose proof (call_calls ExpectDownload page_expect_download st) as Hfirst.
  destruct (call ExpectDownload page_expect_download st) as [[[]|] st1];
    simpl in Hfirst.
  - match goal with |- context [bind ?m ?k st1] =>
      assert (Hmore : respects more_calls (bind m k)) by frame;
      specialize (Hmore st1); destruct (bind m k st1) as [r st2]
    end.
    destruct Hmore as [more Hmore]. simpl in Hmore.
    exists more. destruct r; simpl; rewrite Hmore, Hfirst; by rewrite <- app_assoc.
  - exists []. simpl. by rewrite Hfirst.
Qed.

(** A fetched body that is not a PDF leaves the [try] block with nothing. *)
Lemma direct_fetch_non_pdf full idx (st1 st2 : State W) resp :
  call (RequestGet full) (request_get full) st1 = (Ok resp, st2) →
  (∀ body, resp_body resp = Ok body → startswith PDF_MAGIC body = false) →
  direct_fetch full idx st1 = (Ok None, st2).
Proof.
  intros Hget Hbody. unfold direct_fetch, try_except. unfold bind at 1.
  rewrite Hget. destruct (resp_ok resp); [|done].
  unfold bind at 1, lift_exc at 1.
  destruct (resp_body resp) as [body|] eqn:Hb; [|done].
  by rewrite (Hbody body).
Qed.

(** C5: when the direct fetch answers with a body that does not begin with
    [%PDF] (or with no body at all), [save_download] writes nothing from
    that answer and goes on with the triggered download; what it returns is
    what that strategy returns. *)
Theorem save_download_non_pdf_falls_back
    (idx : nat) (st st1 st2 : State W) (href full : pystr) (resp : Response) :
  read_href st = (Ok href, st1) →
  usable_href href = true →
  urljoin (page_url (world st1)) href = Ok full →
  call (RequestGet full) (request_get full) st1 = (Ok resp, st2) →
  (∀ body, resp_body resp = Ok body → startswith PDF_MAGIC body = false) →
  save_download idx st = triggered_download idx st2
  ∧ files st2 = files st
  ∧ calls st2 = calls st ++ [GetAttribute PDF_LINK "href"; RequestGet full]
  ∧ ∃ more, calls (save_download idx st).2 = calls st2 ++ ExpectDownload :: more.
Proof.
  intros Hhref Husable Hjoin Hget Hbody.
  assert (Hsave : save_download idx st = triggered_download idx st2).
  { unfold save_download. unfold bind at 1. rewrite Hhref, Husable.
    unfold bind at 1. unfold bind at 1. unfold bind at 1, lift_exc at 1.
    rewrite Hjoin, (direct_fetch_non_pdf full idx st1 st2 resp Hget Hbody).
    reflexivity. }
  assert (Hst1 : st1 = (read_href st).2) by (by rewrite Hhref).
  assert (Hst2 : st2 = (call (RequestGet full) (request_get full) st1).2)
    by (by rewrite Hget).
  split; [done|]. split; [|split].
  - rewrite Hst2, call_same_files, Hst1, read_href_state. apply call_same_files.
  - rewrite Hst2, call_calls, Hst1, read_href_state, call_calls.
    by rewrite <- app_assoc.
  - rewrite Hsave. apply triggered_download_first_call.
Qed.

End ResolverFacts.

(** ** Renaming by index *)

Lemma str_inj s t : str s = str t → s = t.
Proof.
  unfold str. intros E.
  rewrite <- (string_of_list_ascii_of_string s),
          <- (string_of_list_ascii_of_string t).
  f_equal. revert E. generalize (list_ascii_of_string t).
  induction (list_ascii_of_string s) as [|a l IH]; intros [|b l']; try done.
  rewrite !fmap_cons. intros [= Hab Hl]. f_equal; [|by apply IH].
  by rewrite <- (ascii_N_embedding a), <- (ascii_N_embedding b), Hab.
Qed.

Lemma to_uint_unorm i : Decimal.unorm (Nat.to_uint i) = Nat.to_uint i.
Proof.
  rewrite <- DecimalNat.Unsigned.to_of. by rewrite DecimalNat.Unsigned.of_to.
Qed.

Lemma to_uint_nonnil i : Nat.to_uint i ≠ Decimal.Nil.
Proof. rewrite <- to_uint_unorm. apply DecimalFacts.unorm_nonnil. Qed.

Lemma str_of_nat_inj i j : str_of_nat i = str_of_nat j → i = j.
Proof.
  unfold str_of_nat. intros E%str_inj.
  apply DecimalNat.Unsigned.to_uint_inj.
  assert (Some (Nat.to_uint i) = Some (Nat.to_uint j)) as [= ?]; [|done].
  rewrite <- (NilZero.usu (Nat.to_uint i)) by apply to_uint_nonnil.
  rewrite <- (NilZero.usu (Nat.to_uint j)) by apply to_uint_nonnil.
  by rewrite E.
Qed.

(** A decimal numeral begins with a zero only when it is ["0"]. *)
Lemma str_of_nat_head i :
  i ≠ O → ∃ c rest, str_of_nat i = c :: rest ∧ c ≠ 48.
Proof.
  intros Hi. unfold str_of_nat.
  pose proof (to_uint_unorm i) as Hnorm.
  destruct (Nat.to_uint i) as [|d|d|d|d|d|d|d|d|d|d] eqn:Hd;
    try (eexists _, _; split; [reflexivity | by vm_compute]).
  exfalso. rewrite DecimalFacts.unorm_D0 in Hnorm. unfold Decimal.unorm in Hnorm.
  destruct (Decimal.nzhead d) as [|u|u|u|u|u|u|u|u|u|u] eqn:Hnz;
    try discriminate Hnorm.
  - injection Hnorm as <-. apply Hi.
    apply DecimalNat.Unsigned.to_uint_inj. by rewrite Hd.
  - by apply (DecimalFacts.nzhead_nonzero d u).
Qed.

Lemma lstrip_by_replicate p c n s :
  p c = true → lstrip_by p (replicate n c ++ s) = lstrip_by p s.
Proof. intros Hc. induction n as [|n IH]; simpl; [done|]. by rewrite Hc. Qed.

(** Without its padding, [fmt03 idx] is the numeral of [idx]. *)
Lemma fmt03_unpad idx :
  or_else (lstrip_by (N.eqb 48) (fmt03 idx)) [48] = str_of_nat idx.
Proof.
  unfold fmt03. rewrite lstrip_by_replicate by done.
  destruct idx as [|n]; [done|].
  destruct (str_of_nat_head (S n)) as (c & rest & -> & Hc); [done|].
  cbn [lstrip_by]. by destruct (N.eqb_spec 48 c) as [<-|].
Qed.

Lemma fmt03_inj i j : fmt03 i = fmt03 j → i = j.
Proof.
  intros E. apply str_of_nat_inj. by rewrite <- !fmt03_unpad, E.
Qed.

Lemma stem_suffix name : path_stem name ++ path_suffix name = name.
Proof.
  unfold path_stem, path_suffix.
  destruct (suffix_index name); [apply take_drop | apply app_nil_r].
Qed.

(** Renaming one name at two indices gives two names, neither of them the
    name itself. *)
Lemma renamed_inj fn i j : renamed fn i = renamed fn j → i = j.
Proof.
  unfold renamed. intros E. apply fmt03_inj.
  apply app_inv_head in E. apply app_inv_head in E.
  by apply app_inv_tail in E.
Qed.

Lemma renamed_fresh fn idx : renamed fn idx ≠ fn.
Proof.
  unfold renamed. intros E. apply (f_equal length) in E.
  rewrite <- (stem_suffix fn) in E at 3. rewrite !length_app in E.
  simpl in E. lia.
Qed.

Section RenamingFacts.
Context `{PyRuntime} {W : Type} `{Browser W}.

(** Two rows with one slugged name: once the name is in the directory, the
    later row's destination is not the earlier row's. *)
Lemma same_name_destinations_differ fn i j (st st' : State W) :
  i ≠ j → fn ∈ files st' →
  (destination fn i st).1 ≠ (destination fn j st').1.
Proof.
  intros Hij Hin. unfold destination, bind, path_exists, ret. simpl.
  rewrite (bool_decide_eq_true_2 _ Hin).
  destruct (bool_decide (fn ∈ files st)); intros [= E].
  - by apply renamed_inj in E.
  - symmetry in E. by apply renamed_fresh in E.
Qed.

End RenamingFacts.

(** ** The Month Runner's row loop *)

Section RunnerFacts.
Context `{PyRuntime} {W : Type} `{Browser W}.

(** A [bind] that returned went through both of its halves. *)
Lemma bind_Ok {A B} (m : M W A) (k : A → M W B) st b st' :
  bind m k st = (Ok b, st') →
  ∃ a st1, m st = (Ok a, st1) ∧ k a st1 = (Ok b, st').
Proof.
  unfold bind. destruct (m st) as [[a|] st1]; [|done]. intros Hk. eauto.
Qed.

Lemma respects_Ok {A} R (m : M W A) st a st' :
  respects R m → m st = (Ok a, st') → R st st'.
Proof. intros Hm Hrun. specialize (Hm st). by rewrite Hrun in Hm. Qed.

Lemma get_current_result_key_same_ledger :
  respects same_ledger (get_current_result_key (W:=W)).
Proof. unfold get_current_result_key. frame. Qed.

Lemma get_current_result_key_returns (st : State W) :
  ∃ key st', get_current_result_key st = (Ok key, st').
Proof.
  unfold get_current_result_key, try_except, bind.
  destruct (inner_text KEY_TEXT st) as [[text|] st']; simpl; eauto.
Qed.

Lemma click_if_possible_same_ledger l :
  respects same_ledger (click_if_possible (W:=W) l).
Proof. unfold click_if_possible. frame. Qed.

(** [record_result] appends one row, which begins with the index. *)
Lemma record_result_ledger idx total_ok saved (st st' : State W) total_ok' :
  record_result idx total_ok saved st = (Ok total_ok', st') →
  ∃ row, ledger st' = ledger st ++ [row] ∧ head row = Some (str_of_nat idx).
Proof.
  destruct saved as [name|]; simpl; intros [= _ <-]; simpl; eauto.
Qed.

(** Processing a row appends exactly one row to the ledger. *)
Lemma process_row_ledger idx total_ok (st st1 : State W) key total_ok' :
  process_row idx total_ok st = (Ok (key, total_ok'), st1) →
  ∃ row, ledger st1 = ledger st ++ [row] ∧ head row = Some (str_of_nat idx).
Proof.
  unfold process_row. intros Hrun.
  apply bind_Ok in Hrun as (key0 & s1 & H1 & Hrun).
  apply bind_Ok in Hrun as ([] & s2 & H2 & Hrun).
  apply bind_Ok in Hrun as (n & s3 & H3 & Hrun).
  apply bind_Ok in Hrun as ([] & s4 & H4 & Hrun).
  apply bind_Ok in Hrun as (saved & s5 & H5 & Hrun).
  apply bind_Ok in Hrun as (t & s6 & H6 & Hrun).
  injection Hrun as _ _ <-.
  apply (respects_Ok same_ledger) in H1; [|apply get_current_result_key_same_ledger].
  apply (respects_Ok same_ledger) in H2; [|apply click_if_possible_same_ledger].
  apply (respects_Ok same_ledger) in H3; [|frame].
  apply (respects_Ok same_ledger) in H4; [|apply click_if_possible_same_ledger].
  apply (respects_Ok same_ledger) in H5; [|apply save_download_same_ledger].
  apply record_result_ledger in H6 as (row & Hrow & Hidx).
  exists row. split; [|done].
  unfold same_ledger in *. congruence.
Qed.

(** C2: the loop processes, then checks.  When the position read after a
    row was processed parses as (current, total) with current >= total, the
    loop ends there: one row was appended to the ledger for the index, and
    after that read nothing more is called on the page, so
    [move_next_distinct] is not entered.  With current = total = 1 this is
    the page with a single result. *)
Theorem rows_loop_stops_at_last_result
    (fuel idx total_ok : nat) (st st1 st2 : State W)
    (key pos_txt g1 g2 : pystr) (total_ok' : nat) (current total : N) :
  process_row idx total_ok st = (Ok (key, total_ok'), st1) →
  get_current_result_key st1 = (Ok pos_txt, st2) →
  search_position pos_txt = Some (g1, g2) →
  py_int g1 = Ok current →
  py_int g2 = Ok total →
  total ≤ current →
  let final := (print LAST_RESULT_LINE st2).2 in
  rows_loop (S fuel) idx total_ok st = (Ok (Some (idx, total_ok')), final)
  ∧ (∃ row, ledger final = ledger st ++ [row]
            ∧ head row = Some (str_of_nat idx))
  ∧ calls final = calls st2.
Proof.
  intros Hrow Hkey Hsearch Hcur Htot Hle final.
  split; [|split; [|done]].
  - cbn [rows_loop]. unfold bind at 1. unfold row_iteration. unfold bind at 1.
    rewrite Hrow. unfold bind at 1. cbn [fst snd]. unfold check_and_advance.
    unfold bind at 1. rewrite Hkey. unfold bind at 1, lift_exc at 1.
    unfold at_last_result. rewrite Hsearch, Hcur, Htot.
    apply N.leb_le in Hle. rewrite Hle. reflexivity.
  - apply process_row_ledger in Hrow as (row & Hrow & Hidx).
    exists row. split; [|done]. subst final. simpl.
    apply (respects_Ok same_ledger) in Hkey;
      [|apply get_current_result_key_same_ledger].
    unfold same_ledger in Hkey. congruence.
Qed.

End RunnerFacts.

(* ===================================================================== *)
(** * Further properties *)
(* ===================================================================== *)

(** ** The counters of the summary *)

Section CounterFacts.
Context `{PyRuntime}.

Lemma counter_total_incr k c :
  counter_total (counter_incr k c) = S (counter_total c).
Proof.
  unfold counter_total, counter_incr.
  destruct (c !! k) as [v|] eqn:Hk; simpl.
  - rewrite <- (insert_delete_eq c k (S v)).
    rewrite map_to_list_insert by apply lookup_delete_eq.
    by rewrite <- (map_to_list_delete c k v Hk).
  - by rewrite map_to_list_insert.
Qed.

Lemma counter_get_incr k k' c :
  counter_get k' (counter_incr k c)
  = (counter_get k' c + if bool_decide (k = k') then 1 else 0)%nat.
Proof.
  unfold counter_get, counter_incr. case_bool_decide as Hk.
  - subst k'. rewrite lookup_insert_eq. simpl. lia.
  - rewrite lookup_insert_ne by done. lia.
Qed.

Lemma bucket_key_nonempty name : bucket_key name ≠ [].
Proof.
  unfold bucket_key, or_else. destruct (py_upper _); [by vm_compute | done].
Qed.

(** What one row does to the three results. *)
Lemma summarize_row_totals acc row :
  let '(ok0, err0, p0) := acc in
  let '(ok1, err1, p1) := summarize_row acc row in
  (counter_total p0 = ok0 → counter_total p1 = ok1)
  ∧ (map_Forall (λ k v, k ≠ [] ∧ (1 ≤ v)%nat) p0 →
     map_Forall (λ k v, k ≠ [] ∧ (1 ≤ v)%nat) p1).
Proof.
  destruct acc as [[ok0 err0] p0]. unfold summarize_row.
  repeat case_bool_decide; try done.
  split.
  - intros <-. apply counter_total_incr.
  - intros Hall. unfold counter_incr. apply map_Forall_insert_2; [|done].
    split; [apply bucket_key_nonempty | lia].
Qed.

Lemma summarize_rows_totals rows acc :
  let '(ok0, err0, p0) := acc in
  let '(ok1, err1, p1) := foldl summarize_row acc rows in
  (counter_total p0 = ok0 → counter_total p1 = ok1)
  ∧ (map_Forall (λ k v, k ≠ [] ∧ (1 ≤ v)%nat) p0 →
     map_Forall (λ k v, k ≠ [] ∧ (1 ≤ v)%nat) p1).
Proof.
  revert acc. induction rows as [|row rows IH]; intros acc.
  - by destruct acc as [[ok0 err0] p0].
  - simpl. specialize (IH (summarize_row acc row)).
    pose proof (summarize_row_totals acc row) as Hstep.
    destruct acc as [[ok0 err0] p0].
    destruct (summarize_row _ row) as [[ok1 err1] p1].
    destruct (foldl _ _ rows) as [[ok2 err2] p2].
    destruct IH as [IH1 IH2], Hstep as [Hs1 Hs2]. split; auto.
Qed.

Lemma summarize_log_counter (log_csv : option csv_rows) :
  let '(ok_total, _, prefixes) := summarize_log log_csv in
  counter_total prefixes = ok_total
  ∧ map_Forall (λ k v, k ≠ [] ∧ (1 ≤ v)%nat) prefixes.
Proof.
  destruct log_csv as [rows|]; simpl; [|split; [done | apply map_Forall_empty]].
  pose proof (summarize_rows_totals (dict_reader rows) (0%nat, 0%nat, ∅)) as Hsum.
  simpl in Hsum. destruct (foldl _ _ _) as [[ok err] prefixes].
  destruct Hsum as [Htotal Hall]. split; [by apply Htotal|].
  apply Hall, map_Forall_empty.
Qed.

(** X1: for every CSV file, read or missing, the counts per prefix that
    [summarize_log] returns add up to its count of OK rows. *)
Theorem summarize_log_buckets_add_up (log_csv : option csv_rows) :
  let '(ok_total, _, prefixes) := summarize_log log_csv in
  counter_total prefixes = ok_total.
Proof.
  pose proof (summarize_log_counter log_csv) as Hc.
  destruct (summarize_log log_csv) as [[ok err] prefixes]. apply Hc.
Qed.

(** X2: no bucket of the summary has the empty key, and none has the count
    zero: a key is in the counter only when an OK row fell into it. *)
Theorem summarize_log_buckets_proper (log_csv : option csv_rows) :
  let '(_, _, prefixes) := summarize_log log_csv in
  map_Forall (λ k v, k ≠ [] ∧ (1 ≤ v)%nat) prefixes.
Proof.
  pose proof (summarize_log_counter log_csv) as Hc.
  destruct (summarize_log log_csv) as [[ok err] prefixes]. apply Hc.
Qed.

(** Two accumulators that differ by fixed amounts still do after a row. *)
Lemma summarize_row_shifted delta acc0 acc row :
  shifted delta acc0 acc →
  shifted delta (summarize_row acc0 row) (summarize_row acc row).
Proof.
  destruct delta as [[a b] q], acc0 as [[ok0 err0] p0], acc as [[ok err] p].
  intros (-> & -> & Hp). unfold summarize_row.
  repeat case_bool_decide; simpl; repeat split; try lia; try done.
  intros k. rewrite !counter_get_incr, Hp. lia.
Qed.

Lemma summarize_rows_shifted rows delta acc0 acc :
  shifted delta acc0 acc →
  shifted delta (foldl summarize_row acc0 rows) (foldl summarize_row acc rows).
Proof.
  revert acc0 acc. induction rows as [|row rows IH]; intros acc0 acc Hs; [done|].
  simpl. by apply IH, summarize_row_shifted.
Qed.

Lemma summarize_rows_app (rows1 rows2 : list (gmap pystr pystr)) :
  let '(ok1, err1, p1) := foldl summarize_row (0%nat, 0%nat, ∅) rows1 in
  let '(ok2, err2, p2) := foldl summarize_row (0%nat, 0%nat, ∅) rows2 in
  let '(ok, err, p) := foldl summarize_row (0%nat, 0%nat, ∅) (rows1 ++ rows2) in
  ok = (ok1 + ok2)%nat ∧ err = (err1 + err2)%nat
  ∧ ∀ k, counter_get k p = (counter_get k p1 + counter_get k p2)%nat.
Proof.
  rewrite foldl_app.
  pose proof (summarize_rows_shifted rows2
                (foldl summarize_row (0%nat, 0%nat, ∅) rows1)
                (0%nat, 0%nat, ∅)
                (foldl summarize_row (0%nat, 0%nat, ∅) rows1)) as Hs.
  destruct (foldl summarize_row (0%nat, 0%nat, ∅) rows1) as [[ok1 err1] p1].
  destruct (foldl summarize_row (0%nat, 0%nat, ∅) rows2) as [[ok2 err2] p2].
  destruct (foldl summarize_row (ok1, err1, p1) rows2) as [[ok err] p].
  apply Hs. unfold shifted, counter_get.
  repeat split; try lia. intros k. rewrite lookup_empty. simpl. lia.
Qed.

(** X3: the ledger is summed row by row: under one header, the summary of
    rows followed by more rows is the sum of the two summaries, in the OK
    count, in the ERROR count and in every bucket. *)
Theorem summarize_log_appended (header : list pystr) (d1 d2 : csv_rows) :
  let '(ok1, err1, p1) := summarize_log (Some (header :: d1)) in
  let '(ok2, err2, p2) := summarize_log (Some (header :: d2)) in
  let '(ok, err, p) := summarize_log (Some (header :: d1 ++ d2)) in
  ok = (ok1 + ok2)%nat ∧ err = (err1 + err2)%nat
  ∧ ∀ k, counter_get k p = (counter_get k p1 + counter_get k p2)%nat.
Proof.
  unfold summarize_log, dict_reader. rewrite filter_app, fmap_app.
  apply summarize_rows_app.
Qed.

End CounterFacts.

(** ** The order of the summary *)

Lemma pystr_leb_cons x a y b :
  pystr_leb (x :: a) (y :: b) = true
  ↔ (x < y)%N ∨ (x = y ∧ pystr_leb a b = true).
Proof.
  simpl. by rewrite orb_true_iff, andb_true_iff, N.ltb_lt, N.eqb_eq.
Qed.

Lemma pystr_leb_total a b : pystr_leb a b = true ∨ pystr_leb b a = true.
Proof.
  revert b. induction a as [|x a IH]; intros [|y b]; try (by left); [by right|].
  rewrite !pystr_leb_cons. destruct (IH b); destruct (N.lt_total x y) as [?|[?|?]];
    naive_solver.
Qed.

Lemma pystr_leb_trans a b c :
  pystr_leb a b = true → pystr_leb b c = true → pystr_leb a c = true.
Proof.
  revert b c. induction a as [|x a IH]; intros [|y b] [|z c]; try done.
  rewrite !pystr_leb_cons. intros [?|[-> ?]] [?|[-> ?]]; try (left; lia); eauto.
Qed.

Lemma pystr_leb_antisym a b :
  pystr_leb a b = true → pystr_leb b a = true → a = b.
Proof.
  revert b. induction a as [|x a IH]; intros [|y b]; try done.
  rewrite !pystr_leb_cons. intros [?|[-> ?]] [?|[? ?]]; try lia.
  f_equal. by apply IH.
Qed.

Lemma summary_le_alt a b :
  summary_le a b
  ↔ (b.2 < a.2)%nat ∨ (a.2 = b.2 ∧ pystr_leb a.1 b.1 = true).
Proof.
  unfold summary_le, summary_leb.
  by rewrite orb_true_iff, andb_true_iff, Nat.ltb_lt, Nat.eqb_eq.
Qed.

#[global] Instance summary_le_total : Total summary_le.
Proof.
  intros a b. rewrite !summary_le_alt.
  destruct (pystr_leb_total a.1 b.1); destruct (Nat.lt_total a.2 b.2) as [?|[?|?]];
    naive_solver.
Qed.

#[global] Instance summary_le_trans : Transitive summary_le.
Proof.
  intros a b c. rewrite !summary_le_alt.
  intros [?|[? ?]] [?|[? ?]]; try (left; lia).
  right. split; [lia|]. by apply (pystr_leb_trans _ b.1).
Qed.

#[global] Instance summary_le_antisym : AntiSymm (=) summary_le.
Proof.
  intros [k1 n1] [k2 n2]. rewrite !summary_le_alt. simpl.
  intros [?|[-> ?]] [?|[? ?]]; try lia.
  f_equal. by apply pystr_leb_antisym.
Qed.

(** In a sorted list with distinct keys each item is strictly before the
    later ones. *)
Lemma sorted_distinct_keys_strict (l : list (pystr * nat)) :
  StronglySorted summary_le l → NoDup l.*1 → StronglySorted summary_before l.
Proof.
  induction 1 as [|a l Hsorted IH Hall]; intros Hkeys; [constructor|].
  rewrite fmap_cons in Hkeys. apply NoDup_cons in Hkeys as [Hnotin Hkeys].
  constructor; [by apply IH|].
  apply Forall_forall. intros b Hb.
  pose proof (proj1 (Forall_forall _ _) Hall b Hb) as Hab.
  apply summary_le_alt in Hab as [?|[? ?]]; [by left|].
  right. split; [done|]. split; [|done].
  intros Heq. apply Hnotin. rewrite Heq. by apply list_elem_of_fmap_2.
Qed.

(** X4: [write_summary] lists the buckets by falling count and, among equal
    counts, by rising key, strictly; the list has exactly the items of the
    counter, and it does not depend on the order in which the counter
    yields them. *)
Theorem ordered_by_count_then_key
    (prefixes : gmap pystr nat) (items : list (pystr * nat)) :
  items ≡ₚ map_to_list prefixes →
  ordered items ≡ₚ map_to_list prefixes
  ∧ StronglySorted summary_before (ordered items)
  ∧ ordered items = ordered (map_to_list prefixes).
Proof.
  intros Hitems. unfold ordered.
  assert (Hperm : merge_sort summary_le items ≡ₚ map_to_list prefixes).
  { by rewrite merge_sort_Permutation. }
  split; [done|]. split.
  - apply sorted_distinct_keys_strict.
    + apply StronglySorted_merge_sort; apply _.
    + rewrite Hperm. apply NoDup_fst_map_to_list.
  - apply (Sorted_unique summary_le).
    + apply Sorted_merge_sort, _.
    + apply Sorted_merge_sort, _.
    + by rewrite !merge_sort_Permutation.
Qed.

(** ** The text report *)

Lemma string_of_uint_digits d :
  Forall (λ c, is_digit c = true) (str (NilEmpty.string_of_uint d)).
Proof. induction d; simpl; constructor; done. Qed.

Lemma str_of_nat_digits n :
  Forall (λ c, is_digit c = true) (str_of_nat n) ∧ str_of_nat n ≠ [].
Proof.
  unfold str_of_nat. pose proof (to_uint_nonnil n) as Hn.
  pose proof (string_of_uint_digits (Nat.to_uint n)) as Hd.
  destruct (Nat.to_uint n); done.
Qed.

(** A bucket line ends with a digit. *)
Lemma bucket_line_last it :
  ∃ c, last (bucket_line it) = Some c ∧ is_digit c = true.
Proof.
  unfold bucket_line. destruct (str_of_nat_digits it.2) as [Hd Hne].
  destruct (last (str_of_nat it.2)) as [c|] eqn:Hlast.
  - exists c. split.
    + rewrite !last_app, Hlast. done.
    + apply last_Some in Hlast as [l' Hl']. rewrite Hl' in Hd.
      by apply Forall_app in Hd as [_ [Hc _]%Forall_cons].
  - by apply last_None in Hlast.
Qed.

Lemma bucket_line_not_no_data it : bucket_line it ≠ NO_DATA_LINE.
Proof.
  intros E. destruct (bucket_line_last it) as (c & Hlast & Hc).
  rewrite E in Hlast. vm_compute in Hlast. injection Hlast as <-.
  by vm_compute in Hc.
Qed.

Section ReportFacts.
Context `{PyRuntime}.

(** No bucket at all is no OK row at all. *)
Lemma no_bucket_iff_no_ok (log_csv : option csv_rows) :
  let '(ok_total, _, prefixes) := summarize_log log_csv in
  map_to_list prefixes = [] ↔ ok_total = 0%nat.
Proof.
  pose proof (summarize_log_counter log_csv) as Hc.
  destruct (summarize_log log_csv) as [[ok err] prefixes].
  destruct Hc as [<- Hall]. unfold counter_total. split; [by intros ->|].
  destruct (map_to_list prefixes) as [|[k v] l] eqn:Hl; [done|].
  assert (Hkv : prefixes !! k = Some v).
  { apply elem_of_map_to_list. rewrite Hl. by left. }
  apply Hall in Hkv as [_ Hv]. simpl. lia.
Qed.


End ReportFacts.

(** ** Names that are already safe *)

Section SlugFacts.
Context `{PyRuntime}.

Lemma lstrip_by_id p s :
  (∀ c, head s = Some c → p c = false) → lstrip_by p s = s.
Proof.
  destruct s as [|c s]; [done|]. intros Hhead. simpl.
  by rewrite (Hhead c).
Qed.

Lemma strip_by_id p s :
  (∀ c, head s = Some c → p c = false) →
  (∀ c, last s = Some c → p c = false) →
  strip_by p s = s.
Proof.
  intros Hhead Hlast. unfold strip_by, rstrip_by.
  rewrite (lstrip_by_id p s Hhead), lstrip_by_id.
  - apply reverse_involutive.
  - intros c. rewrite head_reverse. apply Hlast.
Qed.

Lemma re_sub_runs_id keep repl s :
  Forall (λ c, keep c = true) s → re_sub_runs keep repl false s = s.
Proof.
  induction 1 as [|c s Hc _ IH]; simpl; [done|]. by rewrite Hc, IH.
Qed.

(** In ASCII a character of the class [[\w.\-]] is not white space; outside
    ASCII that is a fact of the Unicode tables. *)
Lemma slug_char_not_space c :
  (∀ c, uni_isalnum c = true → uni_isspace c = false) →
  slug_char c = true → py_isspace c = false.
Proof.
  intros Htables. unfold slug_char, re_word, py_isspace, ascii_alnum, in_range, is_ascii.
  destruct (c <? 128) eqn:Hascii.
  - intros Hc. apply orb_false_iff.
    rewrite !orb_true_iff, !andb_true_iff, !N.leb_le, !N.eqb_eq in Hc.
    rewrite !andb_false_iff, !N.leb_gt. lia.
  - rewrite !orb_true_iff, !N.eqb_eq. apply N.ltb_ge in Hascii.
    intros [[Hc | ->] | ->]; [by apply Htables | lia | lia].
Qed.

(** A name made of slug characters that has no white space, dot or
    underscore at either end is its own slug. *)
Lemma slug_safe_fixed_ends name :
  Forall (λ c, slug_char c = true) name →
  (∀ c, head name = Some c → py_isspace c = false ∧ one_of (str "._") c = false) →
  (∀ c, last name = Some c → py_isspace c = false ∧ one_of (str "._") c = false) →
  slug_safe name = name.
Proof.
  intros Hchars Hhead Hlast. unfold slug_safe, py_strip.
  rewrite (strip_by_id py_isspace name);
    [|intros c Hc; by apply Hhead|intros c Hc; by apply Hlast].
  rewrite re_sub_runs_id by done.
  apply strip_by_id; [intros c Hc; by apply Hhead | intros c Hc; by apply Hlast].
Qed.

Lemma slug_safe_fixed name :
  (∀ c, uni_isalnum c = true → uni_isspace c = false) →
  Forall (λ c, slug_char c = true) name →
  (∀ c, head name = Some c → one_of (str "._") c = false) →
  (∀ c, last name = Some c → one_of (str "._") c = false) →
  slug_safe name = name.
Proof.
  intros Htables Hchars Hhead Hlast. apply slug_safe_fixed_ends; [done| |].
  - intros c Hc. split; [|by apply Hhead].
    apply slug_char_not_space; [done|].
    apply head_Some in Hc as [l' ->]. by apply Forall_cons in Hchars as [? _].
  - intros c Hc. split; [|by apply Hlast].
    apply slug_char_not_space; [done|].
    apply last_Some in Hc as [l' ->].
    by apply Forall_app in Hchars as [_ [? _]%Forall_cons].
Qed.

(** X6: a name that is not empty, is made only of word characters, dots and
    hyphens, and neither starts nor ends with a dot or an underscore passes
    through [slugify] unchanged. *)
Theorem slugify_keeps_safe_name (name : pystr) :
  (∀ c, uni_isalnum c = true → uni_isspace c = false) →
  name ≠ [] →
  Forall (λ c, slug_char c = true) name →
  (∀ c, head name = Some c → c ≠ 46 ∧ c ≠ 95) →
  (∀ c, last name = Some c → c ≠ 46 ∧ c ≠ 95) →
  slugify name = name.
Proof.
  intros Htables Hne Hchars Hhead Hlast. unfold slugify.
  assert (Hsep : ∀ c, c ≠ 46 ∧ c ≠ 95 → one_of (str "._") c = false).
  { intros c [H1 H2]. unfold one_of. simpl.
    rewrite !orb_false_iff, !N.eqb_neq. done. }
  rewrite slug_safe_fixed; [by destruct name | done | done | |].
  - intros c Hc. by apply Hsep, Hhead.
  - intros c Hc. by apply Hsep, Hlast.
Qed.

(** X7: [slugify] is idempotent: the slug of a slug is that slug. *)
Theorem slugify_idempotent (name : pystr) :
  (∀ c, uni_isalnum c = true → uni_isspace c = false) →
  slugify (slugify name) = slugify name.
Proof.
  intros Htables. unfold slugify at 2 3. unfold or_else.
  destruct (slug_safe name) as [|c0 safe] eqn:Hsafe; [by vm_compute|].
  rewrite <- Hsafe. unfold slugify.
  rewrite slug_safe_fixed; [by rewrite Hsafe | done | | |].
  - eapply Forall_impl; [apply slug_safe_chars|]. simpl.
    intros c [Hc | [-> | ->]]; unfold slug_char; [by rewrite Hc | done | ].
    by rewrite orb_true_r.
  - apply strip_by_head.
  - apply strip_by_last.
Qed.

Lemma fmt03_digits idx : Forall (λ c, is_digit c = true) (fmt03 idx).
Proof.
  unfold fmt03. apply Forall_app. split; [|apply str_of_nat_digits].
  apply Forall_replicate. done.
Qed.

Lemma digit_slug_char c : is_digit c = true → slug_char c = true.
Proof.
  unfold is_digit, slug_char, re_word, ascii_alnum, is_ascii, in_range.
  intros [H1%N.leb_le H2%N.leb_le]%andb_true_iff.
  replace (c <? 128) with true by (symmetry; apply N.ltb_lt; lia).
  replace (48 <=? c) with true by (symmetry; by apply N.leb_le).
  replace (c <=? 57) with true by (symmetry; by apply N.leb_le).
  done.
Qed.

Lemma default_name_kept idx :
  download_name {| suggested_filename := [] |} idx = default_name idx.
Proof.
  unfold download_name, slugify. simpl.
  rewrite slug_safe_fixed_ends; [done| | |].
  - unfold default_name. apply Forall_app. split; [by vm_compute; repeat constructor|].
    apply Forall_app. split; [|by vm_compute; repeat constructor].
    eapply Forall_impl; [apply fmt03_digits|]. apply digit_slug_char.
  - intros c [= <-]. by vm_compute.
  - unfold default_name. rewrite !last_app. simpl. intros c [= <-]. by vm_compute.
Qed.


End SlugFacts.

(** ** How many calls the paginator makes *)

Section CallCounts.
Context `{PyRuntime} {W : Type} `{Browser W}.

Lemma at_most_ret {A} (a : A) : at_most (W:=W) 0 (ret a).
Proof. intros st. exists []. by rewrite app_nil_r. Qed.

Lemma at_most_call {A} c (f : W → exc A * W) : at_most 1 (call c f).
Proof. intros st. exists [c]. by rewrite call_calls. Qed.

Lemma at_most_weaken {A} n n' (m : M W A) :
  (n ≤ n')%nat → at_most n m → at_most n' m.
Proof.
  intros Hle Hm st. destruct (Hm st) as (more & Hmore & Hlen).
  exists more. split; [done | lia].
Qed.

Lemma at_most_bind {A B} n1 n2 (m : M W A) (k : A → M W B) :
  at_most n1 m → (∀ a, at_most n2 (k a)) → at_most (n1 + n2) (bind m k).
Proof.
  intros Hm Hk st. unfold bind. destruct (Hm st) as (more1 & Hmore1 & Hlen1).
  destruct (m st) as [[a|] st1]; simpl in *.
  - destruct (Hk a st1) as (more2 & Hmore2 & Hlen2).
    exists (more1 ++ more2). rewrite Hmore2, Hmore1, length_app.
    split; [by rewrite app_assoc | lia].
  - exists more1. split; [done | lia].
Qed.

Lemma at_most_try_except {A} n1 n2 (m h : M W A) :
  at_most n1 m → at_most n2 h → at_most (n1 + n2) (try_except m h).
Proof.
  intros Hm Hh st. unfold try_except. destruct (Hm st) as (more1 & Hmore1 & Hlen1).
  destruct (m st) as [[a|] st1]; simpl in *.
  - exists more1. split; [done | lia].
  - destruct (Hh st1) as (more2 & Hmore2 & Hlen2).
    exists (more1 ++ more2). rewrite Hmore2, Hmore1, length_app.
    split; [by rewrite app_assoc | lia].
Qed.

Lemma at_most_wait_for_function prev : at_most (W:=W) 1 (wait_for_function prev).
Proof.
  intros st. unfold wait_for_function.
  destruct (find _ _) as [[seen w]|]; simpl; eexists [_]; split; done.
Qed.

Lemma try_next_control_at_most loc : at_most (W:=W) 3 (try_next_control loc).
Proof.
  unfold try_next_control.
  apply (at_most_try_except 3 0); [|apply at_most_ret].
  apply (at_most_bind 1 2); [apply at_most_call|]. intros n.
  destruct (Nat.eqb n 0); [apply (at_most_weaken 0); [lia | apply at_most_ret]|].
  apply (at_most_bind 1 1); [apply at_most_call|]. intros cls.
  destruct (contains _ _); [apply (at_most_weaken 0); [lia | apply at_most_ret]|].
  apply (at_most_bind 1 0); [apply at_most_call|]. intros _. apply at_most_ret.
Qed.

Lemma click_next_from_at_most sels :
  at_most (W:=W) (3 * length sels) (click_next_from sels).
Proof.
  induction sels as [|loc rest IH]; simpl; [apply at_most_ret|].
  apply (at_most_weaken (3 + 3 * length rest)); [lia|].
  apply at_most_bind; [apply try_next_control_at_most|].
  intros [|]; [|done]. apply (at_most_weaken 0); [lia | apply at_most_ret].
Qed.

Lemma await_new_key_at_most key : at_most (W:=W) 1 (await_new_key key).
Proof.
  unfold await_new_key. destruct (nonempty key).
  - apply (at_most_try_except 1 0); [|apply at_most_ret].
    apply (at_most_bind 1 0); [apply at_most_wait_for_function|].
    intros _. apply at_most_ret.
  - apply (at_most_weaken 0); [lia | apply at_most_ret].
Qed.

Lemma move_next_attempts_at_most n key :
  at_most (W:=W) (11 * n) (move_next_attempts n key).
Proof.
  induction n as [|n IH]; cbn [move_next_attempts]; [apply at_most_ret|].
  apply (at_most_weaken (9 + (1 + (1 + 11 * n)))); [lia|].
  apply at_most_bind; [apply (click_next_from_at_most NEXT_SELECTORS)|].
  intros [|]; cbn [negb].
  - apply at_most_bind; [apply await_new_key_at_most|].
    intros [|]; [apply (at_most_weaken 0); [lia | apply at_most_ret]|].
    apply at_most_bind; [|done].
    apply (at_most_try_except 1 0); [apply at_most_call | apply at_most_ret].
  - apply (at_most_weaken (11 * n)); [lia | done].
Qed.

Lemma await_new_key_returns key (st : State W) :
  ∃ b st', await_new_key key st = (Ok b, st').
Proof.
  unfold await_new_key. destruct (nonempty key); [|by eexists _, _].
  unfold try_except. destruct (bind _ _ st) as [[b|] st']; by eexists _, _.
Qed.

Lemma move_next_attempts_returns n key (st : State W) :
  ∃ b st', move_next_attempts n key st = (Ok b, st').
Proof.
  revert st. induction n as [|n IH]; intros st; cbn [move_next_attempts];
    [by eexists _, _|].
  unfold bind at 1.
  destruct (click_next_result_returns st) as (clicked & st1 & ->).
  destruct clicked; cbn [negb]; [|apply IH].
  unfold bind at 1.
  destruct (await_new_key_returns key st1) as (moved & st2 & ->).
  destruct moved; [by eexists _, _|].
  unfold bind at 1. destruct (pause_returns st2) as [st3 ->]. apply IH.
Qed.

(** X8: on every page [move_next_distinct] returns (it never raises), and
    it does so after at most 33 calls on the page: three attempts of at
    most nine calls to find and click a next-control, one wait and one
    pause each. *)
Theorem move_next_distinct_bounded (current_key : pystr) (st : State W) :
  ∃ b st' more,
    move_next_distinct current_key st = (Ok b, st')
    ∧ calls st' = calls st ++ more
    ∧ (length more ≤ 33)%nat.
Proof.
  destruct (move_next_attempts_returns 3 current_key st) as (b & st' & Hrun).
  destruct (move_next_attempts_at_most 3 current_key st) as (more & Hmore & Hlen).
  unfold move_next_distinct. rewrite Hrun in *.
  exists b, st', more. done.
Qed.

End CallCounts.

(** ** The helpers of the paginator *)

Section HelperFacts.
Context `{PyRuntime} {W : Type} `{Browser W}.


(** X10: [click_if_possible] returns on every page; it clicks once, and a
    second time, by force, only when the first click raised. *)
Theorem click_if_possible_never_raises (l : locator) (st : State W) :
  ∃ st',
    click_if_possible l st = (Ok (), st')
    ∧ ((calls st' = calls st ++ [Click l false]
        ∧ (locator_click l false (world st)).1 = Ok ())
       ∨ (calls st' = calls st ++ [Click l false; Click l true]
          ∧ (locator_click l false (world st)).1 = Raise)).
Proof.
  unfold click_if_possible, try_except, click, call, ret.
  destruct (locator_click l false (world st)) as [[[]|] w]; simpl.
  - eexists. split; [reflexivity|]. by left.
  - destruct (locator_click l true w) as [[[]|] w']; simpl;
      (eexists; split; [reflexivity|]; right; by rewrite <- app_assoc).
Qed.

Lemma try_next_control_true loc (st st' : State W) :
  try_next_control loc st = (Ok true, st') →
  last (calls st') = Some (Click loc false)
  ∧ ∃ w, locator_click loc false w = (Ok (), world st').
Proof.
  unfold try_next_control, try_except. intros Hrun.
  match type of Hrun with context [bind ?m ?k st] =>
    destruct (bind m k st) as [[b|] s1] eqn:Hbody; [|by injection Hrun]
  end.
  injection Hrun as -> ->.
  apply bind_Ok in Hbody as (n & s2 & _ & Hbody).
  destruct (Nat.eqb n 0); [by injection Hbody|].
  apply bind_Ok in Hbody as (cls & s3 & _ & Hbody).
  destruct (contains _ _); [by injection Hbody|].
  apply bind_Ok in Hbody as ([] & s4 & Hclick & Hret).
  injection Hret as <-. unfold click, call in Hclick.
  destruct (locator_click loc false (world s3)) as [r w] eqn:Hw.
  injection Hclick as -> <-. simpl. rewrite last_snoc. split; [done|].
  by exists (world s3).
Qed.

Lemma click_next_from_true sels (st st' : State W) :
  click_next_from sels st = (Ok true, st') →
  ∃ loc, loc ∈ sels
         ∧ last (calls st') = Some (Click loc false)
         ∧ ∃ w, locator_click loc false w = (Ok (), world st').
Proof.
  revert st. induction sels as [|loc rest IH]; intros st; simpl; [by intros [=]|].
  unfold bind at 1.
  destruct (try_next_control loc st) as [[[|]|] st1] eqn:Htry; [| |by intros [=]].
  - intros [= <-]. apply try_next_control_true in Htry as [Hlast Hclick].
    exists loc. split; [by left | done].
  - intros Hrest. destruct (IH st1 Hrest) as (loc' & Hin & Hlast).
    exists loc'. split; [by right | done].
Qed.

(** X11: [click_next_result] returns true only straight after a click on
    one of its three selectors that went through: that click is its last
    call, and the page is as the click left it. *)
Theorem click_next_result_true_after_click (st st' : State W) :
  click_next_result st = (Ok true, st') →
  ∃ loc, loc ∈ NEXT_SELECTORS
         ∧ last (calls st') = Some (Click loc false)
         ∧ ∃ w, locator_click loc false w = (Ok (), world st').
Proof. apply click_next_from_true. Qed.

End HelperFacts.

(** ** What the resolver writes *)

Section WriteFacts.
Context `{PyRuntime} {W : Type} `{Browser W}.

Lemma path_exists_same_files name : respects same_files (path_exists (W:=W) name).
Proof. by intros st. Qed.

Lemma read_url_same_files :
  respects same_files (λ st : State W, (Ok (page_url (world st)), st)).
Proof. by intros st. Qed.

Lemma read_href_same_files : respects same_files (read_href (W:=W)).
Proof.
  unfold read_href, get_attribute.
  auto 10 using path_exists_same_files, read_url_same_files with frame.
Qed.

Lemma writes_or_keeps_none : writes_or_keeps (W:=W) (ret None).
Proof. by intros st. Qed.

(** A step that leaves the directory alone, then one that writes or keeps. *)
Lemma writes_or_keeps_bind {A} (m : M W A) (k : A → M W (option pystr)) :
  respects same_files m → (∀ a, writes_or_keeps (k a)) →
  writes_or_keeps (bind m k).
Proof.
  intros Hm Hk st. unfold bind. specialize (Hm st). unfold same_files in Hm.
  destruct (m st) as [[a|] st1]; simpl in *; [|done].
  specialize (Hk a st1).
  destruct (k a st1) as [[[dst|]|] st2]; simpl in *; congruence.
Qed.

Lemma writes_or_keeps_try (m : M W (option pystr)) :
  writes_or_keeps m → writes_or_keeps (try_except m (ret None)).
Proof.
  intros Hm st. unfold try_except. specialize (Hm st).
  by destruct (m st) as [[[dst|]|] st1].
Qed.

(** The write itself, followed by [return dst]. *)
Lemma writes_or_keeps_write c dst (f : W → exc unit * W) :
  c = WriteBytes dst ∨ c = SaveAs dst →
  writes_or_keeps (disk_write c dst f >> ret (Some dst)).
Proof.
  intros Hc st. unfold bind, disk_write.
  pose proof (call_same_files c f st) as Hfiles.
  pose proof (call_calls c f st) as Hcalls. unfold same_files in Hfiles.
  destruct (call c f st) as [[[]|] st1]; simpl in *; [|done].
  split; [apply elem_of_union; left; by apply elem_of_singleton|].
  rewrite Hcalls, last_snoc.
  destruct Hc as [-> | ->]; [by left | by right].
Qed.

(** The first strategy, then the second when the first gave nothing. *)
Lemma writes_or_keeps_fallback (m1 m2 : M W (option pystr)) :
  writes_or_keeps m1 → writes_or_keeps m2 →
  writes_or_keeps
    (bind m1 (λ r, match r with Some dst => ret (Some dst) | None => m2 end)).
Proof.
  intros H1 H2 st. unfold bind. specialize (H1 st).
  destruct (m1 st) as [[[dst|]|] st1]; simpl in *; [done| |done].
  specialize (H2 st1).
  destruct (m2 st1) as [[[dst|]|] st2]; simpl in *; congruence.
Qed.

Lemma direct_fetch_writes_or_keeps full idx :
  writes_or_keeps (W:=W) (direct_fetch full idx).
Proof.
  unfold direct_fetch. apply writes_or_keeps_try.
  apply writes_or_keeps_bind; [apply call_same_files|]. intros resp.
  destruct (resp_ok resp); [|apply writes_or_keeps_none].
  apply writes_or_keeps_bind; [apply respects_lift_exc, _|]. intros body.
  destruct (startswith _ _); [|apply writes_or_keeps_none].
  apply writes_or_keeps_bind; [apply respects_lift_exc, _|]. intros n.
  apply writes_or_keeps_bind.
  { unfold destination. auto 10 using path_exists_same_files with frame. }
  intros dst. apply writes_or_keeps_write. by left.
Qed.

Lemma triggered_download_writes_or_keeps idx :
  writes_or_keeps (W:=W) (triggered_download idx).
Proof.
  unfold triggered_download. apply writes_or_keeps_try.
  apply writes_or_keeps_bind; [apply call_same_files|]. intros _.
  apply writes_or_keeps_bind; [apply call_same_files|]. intros _.
  apply writes_or_keeps_bind; [apply call_same_files|]. intros d.
  apply writes_or_keeps_bind.
  { unfold destination. auto 10 using path_exists_same_files with frame. }
  intros dst. apply writes_or_keeps_write. by right.
Qed.


End WriteFacts.

(** ** When the resolver fetches, and when it raises *)

#[global] Instance adds_only_preorder {W} P : PreOrder (@adds_only W P).
Proof.
  split.
  - intros st. exists []. by rewrite app_nil_r.
  - intros s1 s2 s3 (m1 & H1 & P1) (m2 & H2 & P2). exists (m1 ++ m2).
    rewrite H2, H1, app_assoc. split; [done | by apply Forall_app].
Qed.

Section FetchFacts.
Context `{PyRuntime} {W : Type} `{Browser W}.

Lemma call_adds_only {A} (P : Call → Prop) c (f : W → exc A * W) :
  P c → respects (adds_only P) (call c f).
Proof.
  intros Hc st. exists [c]. rewrite call_calls. split; [done | by constructor].
Qed.

Lemma quiet_adds_only {A} (P : Call → Prop) (m : M W A) :
  (∀ st, calls (m st).2 = calls st) → respects (adds_only P) m.
Proof. intros Hm st. exists []. by rewrite Hm, app_nil_r. Qed.

Lemma disk_write_adds_only (P : Call → Prop) c name (f : W → exc unit * W) :
  P c → respects (adds_only P) (disk_write c name f).
Proof.
  intros Hc st. unfold disk_write.
  pose proof (call_adds_only P c f Hc st) as Hcall.
  by destruct (call c f st) as [[[]|] st1].
Qed.

(** The triggered download makes no network fetch of its own. *)
Lemma triggered_download_no_fetch idx :
  respects (adds_only not_a_fetch) (triggered_download (W:=W) idx).
Proof.
  unfold triggered_download, click, save_as, destination.
  assert (Hret : ∀ A (a : A), respects (adds_only not_a_fetch) (ret (W:=W) a))
    by (intros; apply respects_ret, _).
  repeat first
    [ apply respects_try_except; [apply _| |]
    | apply respects_bind; [apply _| |intros ?]
    | apply Hret
    | apply call_adds_only; by intros url
    | apply disk_write_adds_only; by intros url
    | apply quiet_adds_only; by intros st ].
Qed.

Lemma read_href_returns (st : State W) :
  ∃ href st', read_href st = (Ok href, st').
Proof.
  unfold read_href, try_except.
  destruct (bind _ _ st) as [[href|] st']; by eexists _, _.
Qed.

Lemma direct_fetch_returns full idx (st : State W) :
  ∃ r st', direct_fetch full idx st = (Ok r, st').
Proof.
  unfold direct_fetch, try_except.
  destruct (bind _ _ st) as [[r|] st']; by eexists _, _.
Qed.

Lemma triggered_download_returns idx (st : State W) :
  ∃ r st', triggered_download idx st = (Ok r, st').
Proof.
  unfold triggered_download, try_except.
  destruct (bind _ _ st) as [[r|] st']; by eexists _, _.
Qed.

(** X13: when the link has no address, or a script placeholder for one,
    [save_download] goes straight to the triggered download and makes no
    network fetch: after reading the address, none of its calls is a
    request. *)
Theorem save_download_inert_href_no_fetch
    (idx : nat) (st st1 : State W) (href : pystr) :
  read_href st = (Ok href, st1) →
  usable_href href = false →
  save_download idx st = triggered_download idx st1
  ∧ adds_only not_a_fetch st (save_download idx st).2.
Proof.
  intros Hhref Hinert.
  assert (Hsave : save_download idx st = triggered_download idx st1).
  { unfold save_download. unfold bind at 1. rewrite Hhref, Hinert.
    by unfold bind at 1. }
  split; [done|]. rewrite Hsave.
  etrans; [|apply triggered_download_no_fetch].
  assert (Hst1 : st1 = (read_href st).2) by (by rewrite Hhref).
  exists [GetAttribute PDF_LINK "href"]. rewrite Hst1, read_href_state, call_calls.
  split; [done|]. constructor; [by intros url | constructor].
Qed.

(** X14: [save_download] raises in one case only: the link has a usable
    address and [urljoin] raises on it. *)
Theorem save_download_raises_only_on_urljoin (idx : nat) (st : State W) :
  (save_download idx st).1 = Raise ↔
  ∃ href, (read_href st).1 = Ok href
          ∧ usable_href href = true
          ∧ urljoin (page_url (world (read_href st).2)) href = Raise.
Proof.
  unfold save_download. unfold bind at 1.
  destruct (read_href_returns st) as (href & st1 & Hhref). rewrite Hhref. simpl.
  destruct (usable_href href) eqn:Husable.
  - unfold bind at 1. unfold bind at 1. unfold bind at 1, lift_exc at 1.
    destruct (urljoin (page_url (world st1)) href) as [full|] eqn:Hjoin.
    + destruct (direct_fetch_returns full idx st1) as (r & st2 & ->).
      split; [|by intros (h & [= <-] & _ & Hr); rewrite Hr in Hjoin].
      destruct r as [dst|]; [done|].
      by destruct (triggered_download_returns idx st2) as (r & st3 & ->).
    + split; [|done]. intros _. by exists href.
  - unfold bind at 1. simpl.
    destruct (triggered_download_returns idx st1) as (r & st2 & ->).
    split; [done|]. by intros (h & [= <-] & Hu & _); rewrite Hu in Husable.
Qed.

End FetchFacts.

(** ** The ledger over the whole loop *)

Section LoopFacts.
Context `{PyRuntime} {W : Type} `{Browser W}.

Lemma appends_row_bind {A} idx total_ok (m : M W A) (k : A → M W (pystr * nat)) :
  respects same_ledger m → (∀ a, appends_row idx total_ok (k a)) →
  appends_row idx total_ok (bind m k).
Proof.
  intros Hm Hk st. unfold bind. specialize (Hm st). unfold same_ledger in Hm.
  destruct (m st) as [[a|] st1]; simpl in *; [|done].
  specialize (Hk a st1).
  destruct (k a st1) as [[[key t]|] st2]; simpl in *; [|congruence].
  destruct Hk as (row & Hrow & Hfor & Ht). exists row. by rewrite Hrow, Hm.
Qed.

Lemma count_ok_ok_row idx name : count_ok [ok_row idx name] = 1%nat.
Proof. unfold count_ok. by rewrite filter_cons_True. Qed.

Lemma count_ok_error_row idx : count_ok [error_row idx] = 0%nat.
Proof. unfold count_ok. by rewrite filter_cons_False by (by vm_compute). Qed.

Lemma record_result_appends idx total_ok saved key :
  appends_row (W:=W) idx total_ok
    (let* total_ok' := record_result idx total_ok saved in ret (key, total_ok')).
Proof.
  intros st. destruct saved as [name|]; cbn -[count_ok].
  - exists (ok_row idx name). rewrite count_ok_ok_row.
    split; [done|]. split; [left; by exists name | lia].
  - exists (error_row idx). rewrite count_ok_error_row.
    split; [done|]. split; [by right | lia].
Qed.

Lemma process_row_appends idx total_ok :
  appends_row (W:=W) idx total_ok (process_row idx total_ok).
Proof.
  unfold process_row.
  apply appends_row_bind; [apply get_current_result_key_same_ledger|]. intros key.
  apply appends_row_bind; [apply click_if_possible_same_ledger|]. intros _.
  apply appends_row_bind; [unfold count; apply call_same_ledger|]. intros n.
  apply appends_row_bind; [apply click_if_possible_same_ledger|]. intros _.
  apply appends_row_bind; [apply save_download_same_ledger|]. intros saved.
  apply record_result_appends.
Qed.

Lemma move_next_attempts_same_ledger n key :
  respects same_ledger (move_next_attempts (W:=W) n key).
Proof.
  induction n as [|n IH]; cbn [move_next_attempts]; [apply respects_ret, _|].
  assert (Hclick : ∀ sels, respects same_ledger (click_next_from (W:=W) sels)).
  { induction sels as [|loc rest IHs]; simpl; [apply respects_ret, _|].
    unfold try_next_control. frame. }
  unfold click_next_result, await_new_key. pose proof (Hclick NEXT_SELECTORS).
  frame.
Qed.

Lemma check_and_advance_same_ledger key :
  respects same_ledger (check_and_advance (W:=W) key).
Proof.
  unfold check_and_advance, move_next_distinct.
  pose proof (move_next_attempts_same_ledger 3 key).
  pose proof (get_current_result_key_same_ledger (W:=W)).
  frame.
Qed.

(** One turn of the loop appends at most the row of its index. *)
Lemma row_iteration_ledger idx total_ok (st st' : State W) r :
  row_iteration idx total_ok st = (r, st') →
  match r with
  | Ok (_, total_ok') =>
      ∃ row, ledger st' = ledger st ++ [row]
             ∧ row_for idx row
             ∧ total_ok' = (total_ok + count_ok [row])%nat
  | Raise =>
      ledger st' = ledger st
      ∨ ∃ row, ledger st' = ledger st ++ [row] ∧ row_for idx row
  end.
Proof.
  unfold row_iteration, bind.
  pose proof (process_row_appends idx total_ok st) as Hrow.
  destruct (process_row idx total_ok st) as [[[key t]|] st1]; cbn [fst snd] in *.
  - destruct Hrow as (row & Hrow & Hfor & Ht).
    pose proof (check_and_advance_same_ledger key st1) as Hsame.
    unfold same_ledger in Hsame.
    destruct (check_and_advance key st1) as [[ctl|] st2]; cbn [fst snd] in *;
      intros [= <- <-].
    + exists row. by rewrite Hsame.
    + right. exists row. by rewrite Hsame.
  - intros [= <- <-]. by left.
Qed.

Lemma count_ok_cons row rows :
  count_ok (row :: rows) = (count_ok [row] + count_ok rows)%nat.
Proof.
  unfold count_ok. rewrite !filter_cons, filter_nil.
  destruct (decide _); simpl; lia.
Qed.

Lemma rows_loop_ledger fuel idx total_ok (st st' : State W) r :
  rows_loop fuel idx total_ok st = (r, st') →
  loop_ledger idx total_ok st r st'.
Proof.
  revert idx total_ok st. induction fuel as [|fuel IH]; intros idx total_ok st.
  - intros [= <- <-]. exists []. simpl. rewrite app_nil_r. by repeat split.
  - cbn [rows_loop]. unfold bind at 1.
    destruct (row_iteration idx total_ok st) as [[[ctl t]|] st1] eqn:Hrun;
      apply row_iteration_ledger in Hrun as Hturn; cbn [fst snd].
    + destruct Hturn as (row & Hrow & Hfor & Ht). destruct ctl.
      * intros [= <- <-]. exists [row]. simpl. split; [done|]. split; [done|].
        intros idx' t' [= <- <-]. split; [lia | done].
      * intros Hrest. destruct (IH _ _ _ Hrest) as (rows & Hrows & Hfrom & Hend).
        exists (row :: rows). rewrite Hrows, Hrow, <- app_assoc.
        split; [done|]. split; [done|]. intros idx' t' Hr.
        destruct (Hend idx' t' Hr) as [Hidx Hcount]. simpl.
        rewrite count_ok_cons. split; lia.
    + intros [= <- <-]. destruct Hturn as [Hsame | (row & Hrow & Hfor)].
      * exists []. rewrite app_nil_r. by repeat split.
      * exists [row]. by repeat split.
Qed.

Lemma rows_from_is_ledger idx rows :
  rows_from idx rows → forallb is_ledger_row rows = true.
Proof.
  revert idx. induction rows as [|row rows IH]; [done|].
  intros idx [Hrow Hfrom]. simpl. rewrite (IH (S idx) Hfrom), andb_true_r.
  by destruct Hrow as [[name ->] | ->].
Qed.

(** X15: whatever the page does and however the loop ends (by itself, by an
    exception, or cut short), the ledger is what it was with whole rows
    appended, one for each index from the first on, each with the state OK
    or ERROR: a job that fails midway leaves a well-formed ledger. *)
Theorem rows_loop_appends_whole_rows (fuel idx total_ok : nat) (st : State W) :
  ∃ rows,
    ledger (rows_loop fuel idx total_ok st).2 = ledger st ++ rows
    ∧ rows_from idx rows
    ∧ forallb is_ledger_row rows = true.
Proof.
  destruct (rows_loop fuel idx total_ok st) as [r st'] eqn:Hrun.
  apply rows_loop_ledger in Hrun as (rows & Hrows & Hfrom & _).
  exists rows. split; [done|]. split; [done|]. by apply (rows_from_is_ledger idx).
Qed.

(** X16: when the loop ends by itself on the index [idx'] with the count
    [total_ok'], it has appended exactly the rows of the indices from the
    first to [idx'], and [total_ok'] has grown by the number of OK rows
    among them. *)
Theorem rows_loop_counts_its_rows
    (fuel idx total_ok idx' total_ok' : nat) (st st' : State W) :
  rows_loop fuel idx total_ok st = (Ok (Some (idx', total_ok')), st') →
  ∃ rows,
    ledger st' = ledger st ++ rows
    ∧ rows_from idx rows
    ∧ (idx + length rows = S idx')%nat
    ∧ total_ok' = (total_ok + count_ok rows)%nat.
Proof.
  intros (rows & Hrows & Hfrom & Hend)%rows_loop_ledger.
  exists rows. destruct (Hend idx' total_ok' eq_refl). done.
Qed.

(** What one ledger row adds to the summary. *)
Lemma summarize_ledger_row idx row acc :
  row_for idx row →
  let '(ok0, err0, _) := acc in
  let '(ok1, err1, _) := summarize_row acc (dict_zip LOG_HEADER row) in
  ok1 = (ok0 + count_ok [row])%nat
  ∧ (ok1 + err1 = S (ok0 + err0))%nat.
Proof.
  destruct acc as [[ok0 err0] p0]. unfold summarize_row.
  intros [[name ->] | ->]; unfold ok_row, error_row; rewrite ledger_row_estado.
  - replace (py_upper (py_strip (str "OK"))) with (str "OK") by (by vm_compute).
    rewrite bool_decide_eq_true_2 by done.
    change [str_of_nat idx; str "OK"; name; []] with (ok_row idx name).
    rewrite count_ok_ok_row. lia.
  - replace (py_upper (py_strip (str "ERROR"))) with (str "ERROR")
      by (by vm_compute).
    rewrite bool_decide_eq_false_2 by (by vm_compute).
    rewrite bool_decide_eq_true_2 by done.
    change [str_of_nat idx; str "ERROR"; []; str "Sin PDF o timeout"]
      with (error_row idx).
    rewrite count_ok_error_row. lia.
Qed.

Lemma summarize_ledger_rows idx rows acc :
  rows_from idx rows →
  let '(ok0, err0, _) := acc in
  let '(ok1, err1, _) := foldl summarize_row acc (dict_zip LOG_HEADER <$> rows) in
  ok1 = (ok0 + count_ok rows)%nat
  ∧ (ok1 + err1 = ok0 + err0 + length rows)%nat.
Proof.
  revert idx acc. induction rows as [|row rows IH]; intros idx acc.
  - intros _. destruct acc as [[ok0 err0] p0]. simpl. split; [|lia].
    unfold count_ok. rewrite filter_nil. simpl. lia.
  - intros [Hrow Hfrom]. simpl.
    pose proof (summarize_ledger_row idx row acc Hrow) as Hstep.
    specialize (IH (S idx) (summarize_row acc (dict_zip LOG_HEADER row)) Hfrom).
    destruct acc as [[ok0 err0] p0].
    destruct (summarize_row _ _) as [[ok1 err1] p1].
    destruct (foldl _ _ _) as [[ok2 err2] p2].
    rewrite count_ok_cons. lia.
Qed.

(** X17: when a job's loop, started on the ledger that holds the header,
    ends by itself on the index [idx'] with [total_ok'] documents saved,
    the summary read back from the ledger counts [total_ok'] OK rows, and
    its OK and ERROR counts together are [idx']: the count the job prints
    and the totals of the summary agree. *)
Theorem summary_agrees_with_loop
    (fuel idx' total_ok' : nat) (st st' : State W) :
  ledger st = [LOG_HEADER] →
  run_rows fuel st = (Ok (Some (idx', total_ok')), st') →
  let '(ok_total, error_total, _) := summarize_log (Some (ledger st')) in
  ok_total = total_ok' ∧ (ok_total + error_total)%nat = idx'.
Proof.
  intros Hstart (rows & Hrows & Hfrom & Hend)%rows_loop_ledger.
  destruct (Hend idx' total_ok' eq_refl) as [Hidx Hcount].
  rewrite Hrows, Hstart. unfold summarize_log, dict_reader. simpl.
  rewrite ledger_rows_not_empty by (by apply (rows_from_is_ledger 1)).
  pose proof (summarize_ledger_rows 1 rows (0%nat, 0%nat, ∅) Hfrom) as Hsum.
  simpl in Hsum. destruct (foldl _ _ _) as [[ok err] p]. lia.
Qed.

End LoopFacts.

(** ** One name at two indices *)

Section SameNameFacts.
Context `{PyRuntime} {W : Type} `{Browser W}.

(** X22: two rows of a job whose files have the same slugged name do not
    share a destination: once the first file is on the disk under its
    destination, the destination of the second, at another index, is a
    different path, whatever else the directory holds by then. *)
Theorem same_name_twice_distinct_destinations
    (fn d1 : pystr) (i j : nat) (st st' : State W) :
  i ≠ j →
  (destination fn i st).1 = Ok d1 →
  files st ⊆ files st' →
  d1 ∈ files st' →
  (destination fn j st').1 ≠ Ok d1.
Proof.
  intros Hij Hfirst Hgrow Hwritten.
  unfold destination, bind, path_exists, ret in *. simpl in *.
  injection Hfirst as <-. case_bool_decide as Hin.
  - rewrite bool_decide_eq_true_2 by set_solver.
    intros [= E]. by apply renamed_inj in E.
  - rewrite bool_decide_eq_true_2 by done.
    intros [= E]. by apply renamed_fresh in E.
Qed.

End SameNameFacts.

(** ** The directory of a month *)

Lemma str_of_Z_inj (y1 y2 : Z) : str_of_Z y1 = str_of_Z y2 → y1 = y2.
Proof.
  unfold str_of_Z.
  assert (Hdigit : ∀ n d, 45 :: d ≠ str_of_nat n).
  { intros n d E. destruct (str_of_nat_digits n) as [Hd _].
    rewrite <- E in Hd. by apply Forall_cons in Hd as [? _]. }
  destruct (Z.ltb_spec y1 0), (Z.ltb_spec y2 0); intros E.
  - injection E as E%str_of_nat_inj. lia.
  - by apply Hdigit in E.
  - symmetry in E. by apply Hdigit in E.
  - apply str_of_nat_inj in E. lia.
Qed.

Lemma month_job_month (year month : Z) (job : MonthJob) :
  month_job year month = Ok job →
  month ∈ [1; 2; 3; 4; 5; 6; 7; 8; 9; 10; 11; 12]%Z
  ∧ output_dir_name job
    = str "descargas_" ++ str_of_Z year ++ str "_" ++ fmt_0d 2 month.
Proof.
  unfold month_job, month_days.
  destruct (_ && _) eqn:Hrange; [|done]. intros [= <-]. split; [|done].
  apply andb_true_iff in Hrange as [H1%Z.leb_le H12%Z.leb_le].
  assert (month = 1 ∨ month = 2 ∨ month = 3 ∨ month = 4 ∨ month = 5
          ∨ month = 6 ∨ month = 7 ∨ month = 8 ∨ month = 9 ∨ month = 10
          ∨ month = 11 ∨ month = 12)%Z as Hm by lia.
  repeat (destruct Hm as [-> | Hm]; [set_solver|]). subst. set_solver.
Qed.

(** X18: two jobs that both get past the check of their month write into
    different directories unless they are the same year and month: the
    directory name [descargas_<year>_<month:02>] determines both. *)
Theorem output_dir_name_injective (y1 m1 y2 m2 : Z) (j1 j2 : MonthJob) :
  month_job y1 m1 = Ok j1 →
  month_job y2 m2 = Ok j2 →
  output_dir_name j1 = output_dir_name j2 →
  y1 = y2 ∧ m1 = m2.
Proof.
  intros [Hm1 ->]%month_job_month [Hm2 ->]%month_job_month E.
  apply app_inv_head in E.
  assert (Hlen : ∀ m, m ∈ [1; 2; 3; 4; 5; 6; 7; 8; 9; 10; 11; 12]%Z →
                 length (str "_" ++ fmt_0d 2 m) = 3%nat).
  { intros m Hm. repeat (apply elem_of_cons in Hm as [-> | Hm]; [done|]).
    by apply elem_of_nil in Hm. }
  apply app_inj_2 in E as [Hy Hm]; [|by rewrite !Hlen].
  split; [by apply str_of_Z_inj|].
  repeat (apply elem_of_cons in Hm1 as [-> | Hm1];
          [repeat (apply elem_of_cons in Hm2 as [-> | Hm2];
                   [by vm_compute in Hm|]);
           by apply elem_of_nil in Hm2|]).
  by apply elem_of_nil in Hm1.
Qed.

(** ** The queue of the window *)

Lemma start_thread_consistent job a :
  app_running a = true → app_controls_busy a = true → app_pending a = [] →
  app_consistent (start_thread job a).
Proof.
  intros Hrun Hbusy Hpending. unfold app_consistent, start_thread. simpl.
  rewrite Hpending, Hrun, Hbusy. simpl. repeat split; try done; lia.
Qed.

Lemma app_step_consistent e a a' :
  app_consistent a → app_step e a = Some a' → app_consistent a'.
Proof.
  intros Hcons Hstep. pose proof Hcons as (Hone & Hrun & Hbusy & Hidle).
  assert (Hfree : app_running a = false → app_pending a = []).
  { intros Hoff. destruct (app_pending a); [done|].
    assert (app_running a = true) by (by apply Hrun). congruence. }
  destruct e as [year month | year | | i rc]; simpl in Hstep.
  - injection Hstep as <-. unfold _run_month.
    destruct (app_running a) eqn:Hr; [exact Hcons|].
    apply start_thread_consistent; simpl; auto.
  - injection Hstep as <-. unfold _run_year.
    destruct (app_running a) eqn:Hr; [exact Hcons|].
    apply start_thread_consistent; simpl; auto.
  - injection Hstep as <-. unfold app_consistent, _stop. simpl.
    split; [done|]. split; [done|]. split; [done|]. done.
  - destruct (app_pending a) as [|job [|job' rest]] eqn:Hpending;
      [done| |simpl in Hone; lia].
    destruct i as [|i]; [|done]. simpl in Hstep. destruct job as [year month].
    injection Hstep as <-.
    assert (Hr : app_running a = true) by (by apply Hrun).
    unfold _month_done, forget_thread. simpl. rewrite Hpending. simpl.
    destruct (negb (rc =? 0)%Z).
    { unfold app_consistent. simpl. repeat split; try done; lia. }
    destruct (app_queue a) as [|next rest].
    { unfold app_consistent. simpl. repeat split; try done; lia. }
    destruct (negb (app_stop_requested a)).
    + apply start_thread_consistent; simpl; [done | congruence | done].
    + unfold app_consistent. simpl. repeat split; try done; lia.
Qed.

(** X19: whatever is clicked and however the months end, the window stays
    consistent: at most one month is being downloaded at a time, the window
    counts as running exactly while one is, the buttons are disabled
    exactly then, and while it is idle nothing is left in the queue. *)
Theorem app_always_consistent (es : list Event) (a : App) :
  app_run es app_init = Some a → app_consistent a.
Proof.
  assert (Hgen : ∀ a0, app_consistent a0 → app_run es a0 = Some a →
                       app_consistent a).
  { induction es as [|e es IH]; intros a0 Ha0; simpl.
    - by intros [= <-].
    - destruct (app_step e a0) as [a1|] eqn:Hstep; [|done].
      apply IH. by apply (app_step_consistent e a0). }
  apply Hgen. unfold app_consistent, app_init. simpl.
  repeat split; try done; lia.
Qed.

(** A month ends with the code 0 while another is queued and no stop was
    requested: the next month is started. *)
Lemma month_done_starts_next (a : App) (job next : Z * Z) (q : list (Z * Z)) :
  app_running a = true →
  app_stop_requested a = false →
  app_pending a = [job] →
  app_queue a = next :: q →
  app_step (Finished 0 0) a
  = Some (mkApp true q false (app_controls_busy a) (app_errors a) [next]
                (app_started a ++ [next])).
Proof.
  destruct a, job. simpl. intros -> -> -> ->. reflexivity.
Qed.

(** The last month of the queue ends with the code 0: the window is idle. *)
Lemma month_done_finishes (a : App) (job : Z * Z) :
  app_stop_requested a = false →
  app_pending a = [job] →
  app_queue a = [] →
  app_step (Finished 0 0) a
  = Some (mkApp false [] false false (app_errors a) [] (app_started a)).
Proof.
  destruct a, job. simpl. intros -> -> ->. reflexivity.
Qed.

(** With a month being downloaded and no stop requested, the months of the
    queue follow one by one as each ends with the code 0. *)
Lemma app_drains_queue (q : list (Z * Z)) (a : App) (job : Z * Z) :
  app_running a = true →
  app_stop_requested a = false →
  app_pending a = [job] →
  app_queue a = q →
  ∃ a', app_run (replicate (S (length q)) (Finished 0 0)) a = Some a'
        ∧ app_started a' = app_started a ++ q
        ∧ app_running a' = false
        ∧ app_pending a' = []
        ∧ app_queue a' = [].
Proof.
  revert a job. induction q as [|next q IH]; intros a job Hrun Hstop Hpending Hq.
  - eexists. cbn [length replicate app_run].
    rewrite (month_done_finishes a job) by done. split; [reflexivity|].
    cbn. by rewrite app_nil_r.
  - cbn [length replicate app_run].
    rewrite (month_done_starts_next a job next q) by done.
    destruct (IH (mkApp true q false (app_controls_busy a) (app_errors a) [next]
                        (app_started a ++ [next])) next)
      as (a' & Hrest & Hstarted & Hdone); try done.
    exists a'. split; [exact Hrest|]. split; [|exact Hdone].
    rewrite Hstarted. cbn. by rewrite <- app_assoc.
Qed.

(** X20: a click on a year while the window is idle downloads the twelve
    months of that year, one after the other and in order, as long as each
    ends with the code 0; after the twelfth the window is idle again. *)
Theorem run_year_downloads_twelve_months (year : Z) (a : App) :
  app_running a = false →
  app_pending a = [] →
  ∃ a', app_run (ClickYear year :: replicate 12 (Finished 0 0)) a = Some a'
        ∧ app_started a'
          = app_started a ++ ((λ m, (year, Z.of_nat m)) <$> seq 1 12)
        ∧ app_running a' = false
        ∧ app_pending a' = []
        ∧ app_queue a' = [].
Proof.
  intros Hidle Hpending. cbn [app_run app_step]. unfold _run_year. rewrite Hidle.
  destruct (app_drains_queue (rest_of_year year)
              (start_thread (year, 1%Z)
                 (mkApp true (rest_of_year year) false true (app_errors a)
                        (app_pending a) (app_started a)))
              (year, 1%Z))
    as (a' & Hrest & Hstarted & Hdone); try (cbn; by rewrite ?Hpending).
  exists a'. split; [exact Hrest|]. split; [|exact Hdone].
  rewrite Hstarted. cbn [start_thread app_started].
  by rewrite <- app_assoc.
Qed.

(** X21: a month that ends with a code other than 0, or that ends after the
    stop button was pressed, is the last of its run: no thread is started
    for another month, the queue is emptied and the window is idle.  The
    error box is shown for the failed month only. *)
Theorem failure_or_stop_ends_the_run (i : nat) (rc : Z) (a a' : App) :
  app_step (Finished i rc) a = Some a' →
  rc ≠ 0%Z ∨ app_stop_requested a = true →
  app_started a' = app_started a
  ∧ app_queue a' = []
  ∧ app_running a' = false
  ∧ (rc = 0%Z → app_errors a' = app_errors a).
Proof.
  simpl. destruct (app_pending a !! i) as [[year month]|]; [|done].
  intros [= <-] Hend. unfold _month_done, forget_thread. simpl.
  destruct (Z.eqb_spec rc 0) as [-> | Hrc]; simpl.
  - destruct Hend as [? | ->]; [done|]. by destruct (app_queue a).
  - done.
Qed.

(** ** Reading the position *)

Lemma run_splits_longest p d t :
  Forall (λ c, p c = true) d →
  match t with [] => True | c :: _ => p c = false end →
  ∃ others, run_splits p (d ++ t) = (d, t) :: others.
Proof.
  intros Hd Ht. induction Hd as [|c d Hc _ [others IH]]; simpl.
  - destruct t as [|c t]; [by exists []|]. simpl. rewrite Ht. by exists [].
  - rewrite Hc, IH. rewrite fmap_cons. simpl. by eexists.
Qed.

Lemma match_here_plus p rest d t g :
  Forall (λ c, p c = true) d → d ≠ [] →
  match t with [] => True | c :: _ => p c = false end →
  match_here rest t = Some g →
  match_here ((p, Plus) :: rest) (d ++ t) = Some (d :: g).
Proof.
  intros Hd Hne Ht Hrest. cbn [match_here candidates].
  destruct (run_splits_longest p d t Hd Ht) as [others ->].
  rewrite filter_cons_True by done. simpl. by rewrite Hrest.
Qed.

Lemma match_here_star p rest d t g :
  Forall (λ c, p c = true) d →
  match t with [] => True | c :: _ => p c = false end →
  match_here rest t = Some g →
  match_here ((p, Star) :: rest) (d ++ t) = Some (d :: g).
Proof.
  intros Hd Ht Hrest. cbn [match_here candidates].
  destruct (run_splits_longest p d t Hd Ht) as [others ->].
  simpl. by rewrite Hrest.
Qed.

Lemma match_here_once p rest c t g :
  p c = true → match_here rest t = Some g →
  match_here ((p, Once) :: rest) (c :: t) = Some ([c] :: g).
Proof. intros Hc Hrest. cbn [match_here candidates]. rewrite Hc. simpl. by rewrite Hrest. Qed.

(** A match at the very start is the one [re.search] returns. *)
Lemma re_search_here items s g :
  match_here items s = Some g → re_search items s = Some g.
Proof. intros Hg. destruct s; cbn [re_search]; by rewrite Hg. Qed.

Section PositionFacts.
Context `{PyRuntime}.

Lemma digit_re_digit c : is_digit c = true → re_digit c = true.
Proof.
  unfold is_digit, re_digit, is_ascii, in_range.
  intros Hc. pose proof Hc as [H1%N.leb_le H2%N.leb_le]%andb_true_iff.
  by replace (c <? 128) with true by (symmetry; apply N.ltb_lt; lia).
Qed.

Lemma digit_not_space c : is_digit c = true → py_isspace c = false.
Proof.
  unfold is_digit, py_isspace, is_ascii, in_range.
  intros [H1%N.leb_le H2%N.leb_le]%andb_true_iff.
  replace (c <? 128) with true by (symmetry; apply N.ltb_lt; lia).
  apply orb_false_iff. rewrite !andb_false_iff, !N.leb_gt. lia.
Qed.

(** The pattern on a position written as two numerals around a slash. *)
Lemma search_position_numerals (c t a b : nat) :
  search_position (str_of_nat c ++ replicate a 32 ++ [47] ++ replicate b 32
                   ++ str_of_nat t)
  = Some (str_of_nat c, str_of_nat t).
Proof.
  destruct (str_of_nat_digits c) as [Hc Hcne], (str_of_nat_digits t) as [Ht Htne].
  unfold search_position.
  assert (Hdigits : ∀ d, Forall (λ x, is_digit x = true) d →
                    Forall (λ x, re_digit x = true) d).
  { intros d Hd. eapply Forall_impl; [exact Hd | apply digit_re_digit]. }
  assert (Hspaces : ∀ n, Forall (λ x, py_isspace x = true) (replicate n 32)).
  { intros n. by apply Forall_replicate. }
  assert (Hmatch : match_here POSITION_RE
            (str_of_nat c ++ replicate a 32 ++ [47] ++ replicate b 32 ++ str_of_nat t)
          = Some [str_of_nat c; replicate a 32; [47]; replicate b 32; str_of_nat t]).
  { unfold POSITION_RE.
    apply match_here_plus; [by apply Hdigits | done | by destruct a |].
    apply match_here_star; [done | done |].
    apply match_here_once; [done|].
    apply match_here_star; [done | |].
    { destruct (str_of_nat t) as [|x d]; [done|].
      apply digit_not_space. by apply Forall_cons in Ht as [? _]. }
    rewrite <- (app_nil_r (str_of_nat t)) at 1.
    by apply match_here_plus; [apply Hdigits | | |]. }
  by rewrite (re_search_here _ _ _ Hmatch).
Qed.

Lemma fold_digit_step (k : N) (a : ascii) (s : string) (acc : N) :
  digit_value (N_of_ascii a) = k →
  foldl (λ acc c, 10 * acc + digit_value c) acc (str (String a s))
  = foldl (λ acc c, 10 * acc + digit_value c) (10 * acc + k) (str s).
Proof.
  intros <-. change (str (String a s)) with (N_of_ascii a :: str s). done.
Qed.

Lemma fold_digits_of_uint d acc :
  foldl (λ acc c, 10 * acc + digit_value c) acc (str (NilEmpty.string_of_uint d))
  = N.of_nat (Nat.of_uint_acc d (N.to_nat acc)).
Proof.
  revert acc. induction d as [|d IH|d IH|d IH|d IH|d IH|d IH|d IH|d IH|d IH|d IH];
    intros acc; cbn [NilEmpty.string_of_uint Nat.of_uint_acc].
  - simpl. by rewrite N2Nat.id.
  - rewrite (fold_digit_step 0) by (by vm_compute).
    rewrite IH, Nat.tail_mul_spec. do 2 f_equal. lia.
  - rewrite (fold_digit_step 1) by (by vm_compute).
    rewrite IH, Nat.tail_mul_spec. do 2 f_equal. lia.
  - rewrite (fold_digit_step 2) by (by vm_compute).
    rewrite IH, Nat.tail_mul_spec. do 2 f_equal. lia.
  - rewrite (fold_digit_step 3) by (by vm_compute).
    rewrite IH, Nat.tail_mul_spec. do 2 f_equal. lia.
  - rewrite (fold_digit_step 4) by (by vm_compute).
    rewrite IH, Nat.tail_mul_spec. do 2 f_equal. lia.
  - rewrite (fold_digit_step 5) by (by vm_compute).
    rewrite IH, Nat.tail_mul_spec. do 2 f_equal. lia.
  - rewrite (fold_digit_step 6) by (by vm_compute).
    rewrite IH, Nat.tail_mul_spec. do 2 f_equal. lia.
  - rewrite (fold_digit_step 7) by (by vm_compute).
    rewrite IH, Nat.tail_mul_spec. do 2 f_equal. lia.
  - rewrite (fold_digit_step 8) by (by vm_compute).
    rewrite IH, Nat.tail_mul_spec. do 2 f_equal. lia.
  - rewrite (fold_digit_step 9) by (by vm_compute).
    rewrite IH, Nat.tail_mul_spec. do 2 f_equal. lia.
Qed.

(** [int(str(n))] is [n], within the interpreter's limit on digits. *)
Lemma py_int_str_of_nat n :
  int_max_str_digits = 0
  ∨ N.of_nat (length (str_of_nat n)) ≤ int_max_str_digits →
  py_int (str_of_nat n) = Ok (N.of_nat n).
Proof.
  intros Hlimit. unfold py_int.
  replace (negb (int_max_str_digits =? 0)
           && (int_max_str_digits <? N.of_nat (length (str_of_nat n))))
    with false.
  - f_equal. unfold str_of_nat. pose proof (to_uint_nonnil n) as Hn.
    replace (NilZero.string_of_uint (Nat.to_uint n))
      with (NilEmpty.string_of_uint (Nat.to_uint n))
      by (by destruct (Nat.to_uint n)).
    rewrite fold_digits_of_uint.
    change (Nat.of_uint_acc (Nat.to_uint n) (N.to_nat 0))
      with (Nat.of_uint (Nat.to_uint n)).
    by rewrite DecimalNat.Unsigned.of_to.
  - symmetry. destruct Hlimit as [-> | Hle]; [done|].
    apply andb_false_iff. right. by apply N.ltb_ge.
Qed.

(** X23: a position shown as two numerals around a slash, with any number
    of spaces on either side of it, is read as (current, total), and it
    counts as the last result exactly when total <= current. *)
Theorem at_last_result_of_position (current total a b : nat) :
  int_max_str_digits = 0
  ∨ (N.of_nat (length (str_of_nat current)) ≤ int_max_str_digits
     ∧ N.of_nat (length (str_of_nat total)) ≤ int_max_str_digits) →
  at_last_result (str_of_nat current ++ replicate a 32 ++ [47]
                  ++ replicate b 32 ++ str_of_nat total)
  = Ok (total <=? current)%nat.
Proof.
  intros Hlimit. unfold at_last_result.
  rewrite search_position_numerals, !py_int_str_of_nat by tauto.
  f_equal. destruct (Nat.leb_spec total current).
  - apply N.leb_le. lia.
  - apply N.leb_gt. lia.
Qed.

End PositionFacts.

(* ===================================================================== *)
(** * The properties on the simulated site *)
(* ===================================================================== *)

Section Examples.
#[local] Existing Instance plain_runtime.

(** On text made of punctuation and white space nothing is left, and the
    name is the fixed default. *)
Lemma slugify_wellformed_witness :
  slugify (str " ?! ") = str "documento.pdf".
Proof.
  apply (slugify_wellformed (str " ?! ")).
  vm_compute. reflexivity.
Defined.

(** The example ledger is a ledger file; its four data rows are counted. *)
Lemma summarize_log_counts_every_row_witness :
  let '(ok_total, error_total, _) :=
    summarize_log (Some example_ledger) in
  (ok_total + error_total)%nat = 4%nat.
Proof.
  apply (summarize_log_counts_every_row example_ledger).
  vm_compute. reflexivity.
Defined.

(** On the last row the activation fails, three times over. *)
Lemma move_next_distinct_three_failed_activations_witness :
  let st0 := start last_row_site in
  move_next_distinct (str "3 / 3") st0
  = (Ok false,
     (click_next_result (click_next_result (click_next_result st0).2).2).2).
Proof.
  apply (move_next_distinct_three_failed_activations
           (str "3 / 3") (start last_row_site)
           (click_next_result (start last_row_site)).2
           (click_next_result (click_next_result (start last_row_site)).2).2);
    vm_compute; reflexivity.
Defined.

(** C4 as stated fails.  On the last row of a list the first activation
    fails, yet [move_next_distinct] does not return with the state that
    attempt left: it queries the three next-controls three times over.  And
    on a page whose next-control appears late the first activation fails
    and the operation still returns true, from its second attempt. *)
Lemma move_next_distinct_retries_failed_activation :
  let st0 := start last_row_site in
  let tried_once := click_next_result st0 in
  let advanced := move_next_distinct (str "3 / 3") st0 in
  (tried_once.1 = Ok false
   ∧ advanced ≠ (Ok false, tried_once.2)
   ∧ calls tried_once.2 = Count <$> NEXT_SELECTORS
   ∧ calls advanced.2
     = Count <$> (NEXT_SELECTORS ++ NEXT_SELECTORS ++ NEXT_SELECTORS))
  ∧ (click_next_result (start late_button_site)).1 = Ok false
  ∧ (move_next_distinct (str "1 / 3") (start late_button_site)).1 = Ok true.
Proof.
  split; [|split; by vm_compute].
  split; [by vm_compute|].
  split; [|split; by vm_compute].
  intros E. apply (f_equal (λ r, length (calls r.2))) in E.
  vm_compute in E. discriminate.
Qed.

(** On a page where the click changes nothing, three clicks and three
    waits end in false. *)
Example move_next_distinct_stalled :
  let r := move_next_distinct (str "1 / 3") (start stuck_site) in
  r.1 = Ok false
  ∧ length (filter (λ c, c = Click NEXT_BUTTON false) (calls r.2)) = 3%nat
  ∧ length (filter (λ c, c = WaitForFunction (str "1 / 3") None) (calls r.2))
    = 3%nat.
Proof. repeat split; by vm_compute. Qed.

(** With the empty key the clicks go through, the page moves on to its
    third row, and the result is false all the same. *)
Example move_next_distinct_unknown_key_moves_on :
  let r := move_next_distinct [] (start first_row_site) in
  r.1 = Ok false
  ∧ site_position (world (start first_row_site)) = str "1 / 3"
  ∧ site_position (world r.2) = str "3 / 3".
Proof. repeat split; by vm_compute. Qed.

(** From the first row of three, a click shows the second row and the wait
    sees its position. *)
Lemma move_next_distinct_true_only_on_new_key_witness :
  ∃ text,
    last (calls (move_next_distinct (str "1 / 3")
                   (start first_row_site)).2)
    = Some (WaitForFunction (str "1 / 3") (Some text))
    ∧ text ≠ [] ∧ js_trim text ≠ str "1 / 3".
Proof.
  apply (move_next_distinct_true_only_on_new_key
           (str "1 / 3") (start first_row_site)).
  vm_compute. reflexivity.
Defined.

(** A web page for an answer: nothing is written from it and the download
    is triggered. *)
Lemma save_download_non_pdf_falls_back_witness :
  let st := start html_site in
  let url := str "https://docs.test/d/T-1.pdf" in
  let st2 := (call (RequestGet url) (request_get url) (read_href st).2).2 in
  save_download 1 st = triggered_download 1 st2
  ∧ files st2 = files st
  ∧ calls st2 = calls st ++ [GetAttribute PDF_LINK "href"; RequestGet url]
  ∧ ∃ more, calls (save_download 1 st).2 = calls st2 ++ ExpectDownload :: more.
Proof.
  apply (save_download_non_pdf_falls_back 1 (start html_site)
           (read_href (start html_site)).2 _
           (str "https://docs.test/d/T-1.pdf")
           (str "https://docs.test/d/T-1.pdf") html_reply).
  - vm_compute. reflexivity.
  - vm_compute. reflexivity.
  - vm_compute. reflexivity.
  - vm_compute. reflexivity.
  - intros body [= <-]. vm_compute. reflexivity.
Defined.

(** The page with a single result, showing 1 / 1: the loop runs once,
    appends one row and stops. *)
Lemma rows_loop_stops_at_last_result_witness :
  let st := start single_result_site in
  let st2 := (get_current_result_key (process_row 1 0 st).2).2 in
  let final := (print LAST_RESULT_LINE st2).2 in
  (run_rows 5 st = (Ok (Some (1%nat, 1%nat)), final)
   ∧ (∃ row, ledger final = ledger st ++ [row]
             ∧ head row = Some (str_of_nat 1))
   ∧ calls final = calls st2)
  ∧ ledger final = [LOG_HEADER; [str "1"; str "OK"; str "T-1.pdf"; []]].
Proof.
  split; [|vm_compute; reflexivity].
  apply (rows_loop_stops_at_last_result 4 1 0 (start single_result_site)
           (process_row 1 0 (start single_result_site)).2 _
           (str "1 / 1") (str "1 / 1") (str "1") (str "1") 1%nat 1 1).
  - vm_compute. reflexivity.
  - vm_compute. reflexivity.
  - vm_compute. reflexivity.
  - vm_compute. reflexivity.
  - vm_compute. reflexivity.
  - reflexivity.
Defined.

(** C3 on the code: the suggested names a.pdf, a_003.pdf, a.pdf at the
    indices 1, 2, 3, in an empty directory.  The third name is taken, so it
    is renamed with its index, to the name the second file was written
    under: two rows of the job have one destination. *)
Theorem save_download_reuses_destination :
  let final := (run_rows 5 (start collision_site)).2 in
  (run_rows 5 (start collision_site)).1 = Ok (Some (3%nat, 3%nat))
  ∧ written (calls final) = [str "a.pdf"; str "a_003.pdf"; str "a_003.pdf"]
  ∧ ¬ NoDup (written (calls final))
  ∧ ledger final
    = [LOG_HEADER;
       [str "1"; str "OK"; str "a.pdf"; []];
       [str "2"; str "OK"; str "a_003.pdf"; []];
       [str "3"; str "OK"; str "a_003.pdf"; []]].
Proof.
  split; [by vm_compute|]. split; [by vm_compute|]. split; [|by vm_compute].
  replace (written _) with [str "a.pdf"; str "a_003.pdf"; str "a_003.pdf"]
    by (by vm_compute).
  intros Hnodup. apply NoDup_cons in Hnodup as [_ Hnodup].
  apply NoDup_cons in Hnodup as [Hnotin _]. apply Hnotin. by left.
Qed.

(** C6 on the code: the name the browser suggests is slugged as it is, so
    the download named informe.docx is saved under that name; and the
    address-derived name [.pdf] loses its dot to the slug's stripping. *)
Theorem save_download_keeps_suggested_extension :
  (save_download 1 (start docx_site)).1 = Ok (Some (str "informe.docx"))
  ∧ download_name {| suggested_filename := str "informe.docx" |} 1
    = str "informe.docx"
  ∧ endswith (str ".pdf") (str "informe.docx") = false
  ∧ fetched_name (str "informe.docx") 1 = str "informe.docx.pdf"
  ∧ fetched_name (str ".pdf") 1 = str "pdf".
Proof. repeat split; by vm_compute. Qed.

(** ** The further properties on examples *)

(** The counter of the example ledger, its items given in the other order. *)
Lemma ordered_by_count_then_key_witness :
  let prefixes : gmap pystr nat := {[ str "AUTO" := 2%nat; str "SENT" := 1%nat ]} in
  let items := [(str "AUTO", 2%nat); (str "SENT", 1%nat)] in
  (ordered items ≡ₚ map_to_list prefixes
   ∧ StronglySorted summary_before (ordered items)
   ∧ ordered items = ordered (map_to_list prefixes))
  ∧ ordered (map_to_list prefixes) = [(str "AUTO", 2%nat); (str "SENT", 1%nat)].
Proof.
  split; [|by vm_compute].
  apply (ordered_by_count_then_key
           {[ str "AUTO" := 2%nat; str "SENT" := 1%nat ]}
           [(str "AUTO", 2%nat); (str "SENT", 1%nat)]).
  replace (map_to_list _) with [(str "SENT", 1%nat); (str "AUTO", 2%nat)]
    by (by vm_compute).
  apply perm_swap.
Defined.

(** A name of the site, already safe. *)
Lemma slugify_keeps_safe_name_witness :
  slugify (str "AUTO-123.pdf") = str "AUTO-123.pdf".
Proof.
  apply (slugify_keeps_safe_name (str "AUTO-123.pdf")).
  - intros c Hc. vm_compute in Hc. discriminate.
  - vm_compute. discriminate.
  - vm_compute. repeat constructor.
  - vm_compute. intros c [= <-]. split; discriminate.
  - vm_compute. intros c [= <-]. split; discriminate.
Defined.

Lemma slugify_idempotent_witness :
  slugify (slugify (str " Auto 12/3.pdf. ")) = slugify (str " Auto 12/3.pdf. ").
Proof.
  apply (slugify_idempotent (str " Auto 12/3.pdf. ")).
  intros c Hc. vm_compute in Hc. discriminate.
Defined.

(** From the first row of three the next-control is clicked. *)
Lemma click_next_result_true_after_click_witness :
  ∃ loc, loc ∈ NEXT_SELECTORS
         ∧ last (calls (click_next_result (start first_row_site)).2)
           = Some (Click loc false)
         ∧ ∃ w, locator_click loc false w
                = (Ok (), world (click_next_result (start first_row_site)).2).
Proof.
  apply (click_next_result_true_after_click (start first_row_site)).
  vm_compute. reflexivity.
Defined.

(** A link that is a script placeholder: the download is triggered. *)
Lemma save_download_inert_href_no_fetch_witness :
  let st := start script_href_site in
  save_download 1 st = triggered_download 1 (read_href st).2
  ∧ adds_only not_a_fetch st (save_download 1 st).2.
Proof.
  apply (save_download_inert_href_no_fetch 1 (start script_href_site) _
           (str "javascript:void(0)")).
  - vm_compute. reflexivity.
  - vm_compute. reflexivity.
Defined.

(** The three rows of the site with the colliding names. *)
Lemma rows_loop_counts_its_rows_witness :
  ∃ rows,
    ledger (run_rows 5 (start collision_site)).2 = [LOG_HEADER] ++ rows
    ∧ rows_from 1 rows
    ∧ (1 + length rows = 4)%nat
    ∧ 3%nat = (0 + count_ok rows)%nat.
Proof.
  apply (rows_loop_counts_its_rows 5 1 0 3 3 (start collision_site)).
  vm_compute. reflexivity.
Defined.

Lemma summary_agrees_with_loop_witness :
  let '(ok_total, error_total, _) :=
    summarize_log (Some (ledger (run_rows 5 (start collision_site)).2)) in
  ok_total = 3%nat ∧ (ok_total + error_total)%nat = 3%nat.
Proof.
  apply (summary_agrees_with_loop 5 3 3 (start collision_site)).
  - reflexivity.
  - vm_compute. reflexivity.
Defined.

(** The second a.pdf of a job, after the first was saved as a.pdf. *)
Lemma same_name_twice_distinct_destinations_witness :
  (destination (str "a.pdf") 2
     (add_file (str "a.pdf") (start collision_site))).1 ≠ Ok (str "a.pdf").
Proof.
  apply (same_name_twice_distinct_destinations (str "a.pdf") (str "a.pdf") 1 2
           (start collision_site)).
  - lia.
  - vm_compute. reflexivity.
  - simpl. set_solver.
  - simpl. set_solver.
Defined.

(** The job of November 2025, and its directory. *)
Lemma output_dir_name_injective_witness :
  month_job 2025 11 = Ok november_2025 ∧ (2025 = 2025 ∧ 11 = 11)%Z.
Proof.
  split; [by vm_compute|].
  apply (output_dir_name_injective 2025 11 2025 11 november_2025 november_2025);
    by vm_compute.
Defined.

(** A year is started and stopped during its second month. *)
Lemma app_always_consistent_witness :
  ∃ a, app_run [ClickYear 2025; Finished 0 0; ClickStop; ClickMonth 2024 3;
                Finished 0 0] app_init = Some a
       ∧ app_consistent a
       ∧ app_started a = [(2025, 1); (2025, 2)]%Z.
Proof.
  eexists. split; [vm_compute; reflexivity|]. split; [|reflexivity].
  apply (app_always_consistent
           [ClickYear 2025; Finished 0 0; ClickStop; ClickMonth 2024 3;
            Finished 0 0]).
  vm_compute. reflexivity.
Defined.

Lemma run_year_downloads_twelve_months_witness :
  ∃ a', app_run (ClickYear 2025 :: replicate 12 (Finished 0 0)) app_init = Some a'
        ∧ app_started a'
          = app_started app_init ++ ((λ m, (2025%Z, Z.of_nat m)) <$> seq 1 12)
        ∧ app_running a' = false
        ∧ app_pending a' = []
        ∧ app_queue a' = [].
Proof.
  apply (run_year_downloads_twelve_months 2025 app_init); reflexivity.
Defined.

(** The third month of a year fails. *)
Lemma failure_or_stop_ends_the_run_witness :
  let a' := _month_done 2025 3 1 (forget_thread 0 third_month_running) in
  app_run [ClickYear 2025; Finished 0 0; Finished 0 0] app_init
  = Some third_month_running
  ∧ (app_started a' = app_started third_month_running
     ∧ app_queue a' = []
     ∧ app_running a' = false
     ∧ (1%Z = 0%Z → app_errors a' = app_errors third_month_running))
  ∧ app_errors a' = [(2025, 3)%Z].
Proof.
  split; [by vm_compute|]. split; [|by vm_compute].
  apply (failure_or_stop_ends_the_run 0 1 third_month_running).
  - reflexivity.
  - left. discriminate.
Defined.

(** An address with an unclosed bracket: [urljoin] raises, and so does
    [save_download]. *)
Lemma save_download_raises_only_on_urljoin_witness :
  (@save_download strict_runtime _ _ 1 (start bad_href_site)).1 = Raise.
Proof.
  apply (@save_download_raises_only_on_urljoin strict_runtime Site _ 1
           (start bad_href_site)).
  exists (str "//["). repeat split; by vm_compute.
Defined.

(** The position 57 / 57 of the last of 57 results. *)
Lemma at_last_result_of_position_witness :
  at_last_result (str "57 / 57") = Ok true.
Proof.
  apply (at_last_result_of_position 57 57 1 1).
  right. by vm_compute.
Defined.



End Examples.
